(** * pre-ms-delays: the delay bookkeeping of [delay.py]

    A shallow embedding of the three functions of [src/delay.py]
    ([get_t_pre_ms], [get_delays], [delay_companions]) together with the
    fragment of NumPy and pandas they rely on.

    Modelling choices.
    - A NumPy array is an immutable [list] of cells: no function of the
      file writes into an array, every arithmetic expression builds a new
      one.
    - A pandas [DataFrame] is a mutable object: it lives in a heap and a
      Python variable holds its address.  [copy] allocates, column
      assignment updates the object in place.
    - The float64 arithmetic of [get_t_pre_ms] is idealised as arithmetic
      on the real numbers (rounding, overflow and underflow are outside
      the model).  [delay_companions] never computes with the cells, it
      only copies and compares them, and is embedded for an arbitrary
      cell type.
    - Python exceptions are a [Raise] result; the heap reached when the
      exception is raised is kept, as it is in Python. *)

From Stdlib Require Import Reals Lra ZArith.
From Stdlib Require Floats.
From stdpp Require Import base option list sorting gmap strings.

Local Open Scope string_scope.
Local Open Scope nat_scope.

(** ** Cells and exceptions *)

(** What [delay_companions] needs from the dtype of a column: equality
    (for [drop_duplicates] and [unique]), integer literals and the
    comparison [<=] (for the tests [>= 3] and [<= 8]), and, for the
    assembly of several columns into one array by [.values], the test
    whether a cell is a float64 and the cast of a cell to float64.
    Between integer literals [<=] is the order of the integers, and the
    cast leaves a float64 as it is. *)
Class Dtype (V : Type) := {
  dtype_eq_dec :: EqDecision V;
  of_int : Z → V;
  cell_le : V → V → bool;
  is_float : V → bool;
  upcast : V → V;
  cell_le_of_int : ∀ a b, cell_le (of_int a) (of_int b) = (a <=? b)%Z;
  upcast_float : ∀ x, is_float x = true → upcast x = x;
}.

(** Tables of int64 cells only. *)
#[export, refine] Instance Z_dtype : Dtype Z :=
  {| of_int := λ z, z; cell_le := Z.leb;
     is_float := λ _, false; upcast := λ z, z |}.
Proof. all: done. Defined.

(** Tables of float64 cells only, idealised as reals. *)
#[export, refine] Instance R_dtype : Dtype R :=
  {| dtype_eq_dec := Req_dec_T;
     of_int := IZR;
     cell_le := λ x y, if Rle_dec x y then true else false;
     is_float := λ _, true; upcast := λ x, x |}.
Proof.
  - intros a b. destruct (Rle_dec (IZR a) (IZR b)) as [Hle|Hnle].
    + symmetry. apply Z.leb_le. by apply le_IZR.
    + symmetry. apply Z.leb_gt. apply Z.nle_gt. intros Hle.
      by apply Hnle, IZR_le.
  - done.
Defined.

(** Tables that mix int64 and float64 columns.  The floats are the
    binary64 numbers of the kernel; an int64 is kept as an integer (the
    module does no integer arithmetic, so that no wrap-around arises). *)
Inductive num :=
  | Int64 (z : Z)
  | Float64 (x : PrimFloat.float).

(** The float64 nearest to an integer, ties to even: the cast of numpy. *)
Definition Z2float (z : Z) : PrimFloat.float :=
  FloatOps.SF2Prim
    (SpecFloat.binary_normalize FloatOps.prec FloatOps.emax z 0 false).

#[export] Instance spec_float_eq_dec : EqDecision SpecFloat.spec_float.
Proof. solve_decision. Defined.

#[export] Instance float_eq_dec : EqDecision PrimFloat.float.
Proof.
  intros x y.
  destruct (decide (FloatOps.Prim2SF x = FloatOps.Prim2SF y)) as [E|E].
  - left. by apply FloatAxioms.Prim2SF_inj.
  - right. by intros ->.
Defined.

#[export] Instance num_eq_dec : EqDecision num.
Proof. solve_decision. Defined.

Definition num_to_float (v : num) : PrimFloat.float :=
  match v with
  | Int64 z => Z2float z
  | Float64 x => x
  end.

(** Two int64 are compared as integers; an int64 that meets a float64
    is cast first. *)
Definition num_le (v w : num) : bool :=
  match v, w with
  | Int64 a, Int64 b => (a <=? b)%Z
  | _, _ => PrimFloat.leb (num_to_float v) (num_to_float w)
  end.

#[export, refine] Instance num_dtype : Dtype num :=
  {| of_int := Int64; cell_le := num_le;
     is_float := λ v, match v with Float64 _ => true | Int64 _ => false end;
     upcast := λ v, Float64 (num_to_float v) |}.
Proof.
  - done.
  - by intros [z|x].
Defined.

Inductive exn :=
  | KeyError (key : string)
  | ValueError (msg : string)
  | ReferenceError
  | EngineError (msg : string).

Inductive result (A : Type) :=
  | Ok (a : A)
  | Raise (e : exn).
Arguments Ok {A} a.
Arguments Raise {A} e.

Definition loc := nat.

(** ** NumPy arrays *)

Section ndarray.
Context {A : Type}.

(** [a[mask]] for a boolean [mask]: the entries at the [True] positions,
    in order. *)
Fixpoint compress (mask : list bool) (a : list A) : list A :=
  match mask, a with
  | b :: mask', x :: a' =>
      if b then x :: compress mask' a' else compress mask' a'
  | _, _ => []
  end.

Context `{EqDecision A}.

(** [Series.duplicated(keep="last")]: an entry is flagged when the same
    value occurs again further down. *)
Fixpoint duplicated_last (a : list A) : list bool :=
  match a with
  | [] => []
  | x :: a' => bool_decide (x ∈ a') :: duplicated_last a'
  end.

(** [Series.unique()]: the distinct values in order of first
    appearance; [seen] is the hash table of values met so far. *)
Fixpoint unique_from (seen : list A) (a : list A) : list A :=
  match a with
  | [] => []
  | x :: a' =>
      if decide (x ∈ seen) then unique_from seen a'
      else x :: unique_from (x :: seen) a'
  end.

Definition unique (a : list A) : list A := unique_from [] a.
End ndarray.

(** Arithmetic on float arrays, idealised over [R]. *)
Section float_arrays.
Local Open Scope R_scope.

(** [a ** p] *)
Definition np_power (a : list R) (p : R) : list R :=
  (λ x, Rpower x p) <$> a.

(** [k * a], the scalar broadcast over the array *)
Definition np_multiply (k : R) (a : list R) : list R :=
  (λ x, k * x) <$> a.

(** [a - b]: elementwise for equal shapes, an array of length one is
    broadcast, any other pair of shapes is refused. *)
Definition np_subtract (a b : list R) : result (list R) :=
  if decide (length a = length b) then Ok (zip_with Rminus a b)
  else match a, b with
       | [x], _ => Ok ((λ y, x - y) <$> b)
       | _, [y] => Ok ((λ x, x - y) <$> a)
       | _, _ => Raise (ValueError "operands could not be broadcast together")
       end.

(** [return 62.8 * M**-2.5] *)
Definition get_t_pre_ms (M : list R) : list R :=
  np_multiply 62.8 (np_power M (-2.5)).
End float_arrays.

(** ** DataFrames, the heap and the monad of Python statements *)

Section frames.
Context {V : Type}.

(** Column-major, as pandas stores it; [nrows] is the length of the
    index. *)
Record DataFrame := mkDataFrame {
  nrows : nat;
  columns : gmap string (list V);
}.

(** The invariant pandas maintains: every column is as long as the index. *)
Definition frame_wf (df : DataFrame) : Prop :=
  map_Forall (λ _ col, length col = nrows df) (columns df).

(** [df[c].values] *)
Definition df_getitem (df : DataFrame) (c : string) : result (list V) :=
  match columns df !! c with
  | Some col => Ok col
  | None => Raise (KeyError c)
  end.

(** The frame [df[c] = values] leaves behind (an array on the right:
    alignment is by position, the column is created when absent).  A
    length mismatch is refused here.  pandas postpones the refusal in one
    case, a frame without rows, which it first stretches to the length of
    [values]; [delay_companions] then fails at its last assignment, so
    that the outcome of a call is an exception either way. *)
Definition df_setitem (df : DataFrame) (c : string) (values : list V)
  : result DataFrame :=
  if decide (length values = nrows df)
  then Ok (mkDataFrame (nrows df) (<[c := values]> (columns df)))
  else Raise (ValueError "Length of values does not match length of index").

(** [df[keys]]: the selected columns, in the order of [keys] *)
Fixpoint df_select (df : DataFrame) (keys : list string)
  : result (list (list V)) :=
  match keys with
  | [] => Ok []
  | c :: keys' =>
      match df_getitem df c with
      | Raise e => Raise e
      | Ok col =>
          match df_select df keys' with
          | Raise e => Raise e
          | Ok cols => Ok (col :: cols)
          end
      end
  end.

(** [df[mask]]: the rows at the [True] positions *)
Definition df_mask (df : DataFrame) (mask : list bool) : DataFrame :=
  mkDataFrame (length (compress mask (seq 0 (nrows df))))
              (compress mask <$> columns df).

Context `{Dtype V}.

(** The cast [.values] applies to every cell when it assembles the
    columns [cols] into one array: the array has one dtype, float64 as
    soon as one of the columns is float64. *)
Definition common_cast (cols : list (list V)) : V → V :=
  if existsb (existsb is_float) cols then upcast else λ x, x.

Definition astype_common (cols : list (list V)) : list (list V) :=
  (λ col : list V, common_cast cols <$> col) <$> cols.

(** [df[keys].values], kept as the list of the columns of the array *)
Definition df_values (df : DataFrame) (keys : list string)
  : result (list (list V)) :=
  match df_select df keys with
  | Raise e => Raise e
  | Ok cols => Ok (astype_common cols)
  end.

(** [df.drop_duplicates(subset=c, keep="last")] *)
Definition drop_duplicates_last (df : DataFrame) (c : string)
  : result DataFrame :=
  match df_getitem df c with
  | Raise e => Raise e
  | Ok keys => Ok (df_mask df (negb <$> duplicated_last keys))
  end.

(** [(df[c] >= lo) & (df[c] <= hi)] on one cell *)
Definition between (lo hi : Z) (x : V) : bool :=
  cell_le (of_int lo) x && cell_le x (of_int hi).

(** The only warning the module raises itself; the f-string of the
    source interpolates the array of identifiers. *)
Inductive warning :=
  | UserWarning (interacting_binaries : list V).

Record state := mkState {
  heap : gmap loc DataFrame;
  warnings_log : list warning;
}.

Definition M (A : Type) : Type := state → result A * state.

#[export] Instance M_ret : MRet M := λ A a s, (Ok a, s).
#[export] Instance M_bind : MBind M := λ A B f m s,
  match m s with
  | (Ok a, s') => f a s'
  | (Raise e, s') => (Raise e, s')
  end.

Definition raise {A} (e : exn) : M A := λ s, (Raise e, s).

Definition lift {A} (r : result A) : M A := λ s, (r, s).

Definition deref (l : loc) : M DataFrame := λ s,
  match heap s !! l with
  | Some df => (Ok df, s)
  | None => (Raise ReferenceError, s)
  end.

Definition store (l : loc) (df : DataFrame) : M unit := λ s,
  (Ok (), mkState (<[l := df]> (heap s)) (warnings_log s)).

Definition fresh_loc (h : gmap loc DataFrame) : loc :=
  fresh (dom h).

Definition alloc (df : DataFrame) : M loc := λ s,
  let l := fresh_loc (heap s) in
  (Ok l, mkState (<[l := df]> (heap s)) (warnings_log s)).

(** [warnings.warn(...)] *)
Definition warn (w : warning) : M unit := λ s,
  (Ok (), mkState (heap s) (warnings_log s ++ [w])).

(** [df.copy()] *)
Definition copy (l : loc) : M loc :=
  df ← deref l; alloc df.

(** [df[c].values] on an object of the heap *)
Definition getitem (l : loc) (c : string) : M (list V) :=
  df ← deref l; lift (df_getitem df c).

(** [df[c] = values] on an object of the heap *)
Definition setitem (l : loc) (c : string) (values : list V) : M unit :=
  df ← deref l; df' ← lift (df_setitem df c values); store l df'.

(** [df[keys] = values] with a two-dimensional array on the right:
    pandas checks the number of columns and then assigns them one by
    one. *)
Fixpoint setitem_columns (l : loc) (keys : list string)
         (values : list (list V)) : M unit :=
  match keys, values with
  | c :: keys', col :: values' =>
      _ ← setitem l c col; setitem_columns l keys' values'
  | _, _ => mret ()
  end.

Definition setitem_array (l : loc) (keys : list string)
           (values : list (list V)) : M unit :=
  if decide (length values = length keys)
  then setitem_columns l keys values
  else raise (ValueError "Columns must be same length as key").
End frames.

Arguments DataFrame : clear implicits.
Arguments state : clear implicits.
Arguments warning : clear implicits.
Arguments M : clear implicits.

(** ** The module [delay.py] *)

(** [get_delays(initC)]: the left operand of the subtraction is
    evaluated first. *)
Definition get_delays (initC : loc) : M R (list R) :=
  mass_2 ← getitem initC "mass_2";
  mass_1 ← getitem initC "mass_1";
  lift (np_subtract (get_t_pre_ms mass_2) (get_t_pre_ms mass_1)).

Definition columns_to_update : list string :=
  ["porb"; "ecc"; "kstar_1"; "mass_1"; "mass0_1"; "rad_1"; "lum_1";
   "massc_1"; "radc_1"; "menv_1"; "renv_1"; "omega_spin_1"; "B_1";
   "bacc_1"; "tacc_1"; "epoch_1"; "tms_1"; "bhspin_1"].

Section delayer.
Context {V : Type} `{Dtype V}.

(** The evolution engine ([cosmic.evolve.Evolve.evolve]) is not part of
    the module: it is a parameter.  It reads the table it is given and
    returns a tuple whose first component is the evolution history
    [bpp], or raises. *)
Context {BSEDict Pool Aux : Type}.
Variable Evolve_evolve :
  DataFrame V → BSEDict → Pool → result (DataFrame V * Aux).

(** [bpp[(bpp["evol_type"] >= 3) & (bpp["evol_type"] <= 8)]["bin_num"].unique()] *)
Definition interacting (bpp : DataFrame V) : result (list V) :=
  match df_getitem bpp "evol_type" with
  | Raise e => Raise e
  | Ok evol_type =>
      match df_getitem (df_mask bpp (between 3 8 <$> evol_type)) "bin_num" with
      | Raise e => Raise e
      | Ok bin_num => Ok (unique bin_num)
      end
  end.

(** One line per statement of the source.  [bpp] and [updater] are only
    read and never escape, they are kept as values.  The two filters
    installed around the engine call act on warnings of the engine, of
    which the model keeps no record: [warnings_log] holds the warnings
    that [delay_companions] raises itself. *)
Definition delay_companions (initC : loc) (delays : list V)
           (pool : Pool) (BSEdict : BSEDict) : M V (loc * list V) :=
  new_initC ← copy initC;
  _ ← setitem new_initC "tphysf" delays;
  table ← deref new_initC;
  '(bpp, _) ← lift (Evolve_evolve table BSEdict pool);
  updater ← lift (drop_duplicates_last bpp "bin_num");
  interacting_binaries ← lift (interacting bpp);
  _ ← (if decide (0 < length interacting_binaries)
       then warn (UserWarning interacting_binaries)
       else mret ());
  values ← lift (df_values updater columns_to_update);
  _ ← setitem_array new_initC columns_to_update values;
  tphysf ← getitem initC "tphysf";
  _ ← setitem new_initC "tphysf" tphysf;
  mret (new_initC, interacting_binaries).
End delayer.

(** ** A small population for the examples *)

(** The eighteen state columns, all equal to [col]. *)
Definition ex_all_columns (col : list Z) : gmap string (list Z) :=
  list_to_map ((λ c, (c, col)) <$> columns_to_update).

(** Two binaries, identifiers [0] and [1]. *)
Definition ex_initC : DataFrame Z :=
  mkDataFrame 2
    (<["bin_num" := [0; 1]]> (<["tphysf" := [10000; 8000]]>
       (<["mass_2" := [2; 1]]> (ex_all_columns [5; 6]))))%Z.

(** A history of five rows: two for binary [0], three for binary [1],
    whose second row records the event code [3]. *)
Definition ex_bpp : DataFrame Z :=
  mkDataFrame 5
    (<["bin_num" := [0; 0; 1; 1; 1]]> (<["evol_type" := [1; 2; 1; 3; 10]]>
       (ex_all_columns [10; 11; 20; 21; 22])))%Z.

(** An engine that answers with that history whatever it is given. *)
Definition ex_evolve (table : DataFrame Z) (_ _ : unit)
  : result (DataFrame Z * unit) :=
  Ok (ex_bpp, ()).

Definition ex_state : state Z := mkState {[ 0 := ex_initC ]} [].

Definition ex_run : result (loc * list Z) * state Z :=
  delay_companions ex_evolve 0 [7; 9]%Z () () ex_state.

(** A history that lists the two binaries in the opposite order. *)
Definition ex_bpp_swapped : DataFrame Z :=
  mkDataFrame 2
    (<["bin_num" := [1; 0]]> (<["evol_type" := [1; 1]]>
       (ex_all_columns [100; 200])))%Z.

Definition ex_evolve_swapped (table : DataFrame Z) (_ _ : unit)
  : result (DataFrame Z * unit) :=
  Ok (ex_bpp_swapped, ()).

(** The two binaries of the end-to-end scenario, with real cells. *)
Definition ex_masses : DataFrame R :=
  mkDataFrame 2
    (<["mass_1" := [1; 3]]> (<["mass_2" := [2; 1]]>
       (<["tphysf" := [10000; 8000]]> ∅)))%R.

Definition ex_mass_state : state R := mkState {[ 0 := ex_masses ]} [].

(** A history whose event codes stand on both sides of both bounds:
    binary [0] records the codes [2], [9] and [1], binary [1] the codes
    [3], [8] and [10]. *)
Definition ex_bpp_codes : DataFrame Z :=
  mkDataFrame 6
    (<["bin_num" := [0; 0; 0; 1; 1; 1]]> (<["evol_type" := [2; 9; 1; 3; 8; 10]]>
       (ex_all_columns [10; 11; 12; 20; 21; 22])))%Z.

Definition ex_evolve_codes (table : DataFrame Z) (_ _ : unit)
  : result (DataFrame Z * unit) :=
  Ok (ex_bpp_codes, ()).

Definition ex_run_codes : result (loc * list Z) * state Z :=
  delay_companions ex_evolve_codes 0 [7; 9]%Z () () ex_state.

(** A population whose columns mix int64 and float64: the identifiers,
    the event codes and [kstar_1] are int64, all other columns float64. *)
Definition ex_float_columns (col : list Z) : gmap string (list num) :=
  list_to_map ((λ c, (c, (λ z, Float64 (Z2float z)) <$> col))
                 <$> columns_to_update).

Definition ex_initC_mixed : DataFrame num :=
  mkDataFrame 2
    (<["bin_num" := [Int64 0; Int64 1]]>
       (<["tphysf" := [Float64 (Z2float 10000); Float64 (Z2float 8000)]]>
          (<["kstar_1" := [Int64 1; Int64 1]]> (ex_float_columns [5; 6]))))%Z.

(** A history of three rows, one for binary [0] and two for binary [1];
    the stellar type recorded for binary [0] is the integer [2^53 + 1]. *)
Definition ex_bpp_mixed : DataFrame num :=
  mkDataFrame 3
    (<["bin_num" := [Int64 0; Int64 1; Int64 1]]>
       (<["evol_type" := [Int64 1; Int64 1; Int64 2]]>
          (<["kstar_1" := [Int64 9007199254740993; Int64 1; Int64 14]]>
             (ex_float_columns [10; 20; 21]))))%Z.

Definition ex_evolve_mixed (table : DataFrame num) (_ _ : unit)
  : result (DataFrame num * unit) :=
  Ok (ex_bpp_mixed, ()).

Definition ex_state_mixed : state num := mkState {[ 0 := ex_initC_mixed ]} [].

Definition ex_delays_mixed : list num :=
  [Float64 (Z2float 7); Float64 (Z2float 9)].

Definition ex_run_mixed : result (loc * list num) * state num :=
  delay_companions ex_evolve_mixed 0 ex_delays_mixed () () ex_state_mixed.

(** ** Vocabulary of the statements *)

(** The row numbers a mask selects. *)
Definition selected (mask : list bool) : list nat :=
  compress mask (seq 0 (length mask)).

Section vocabulary.
Context {V : Type}.

(** The final-state row of an identifier, in the words of the
    specification: the row carries the identifier and no later row
    does. *)
Definition final_state_row (ids : list V) (j : nat) : Prop :=
  ∃ b, ids !! j = Some b ∧ ∀ j', j < j' → ids !! j' ≠ Some b.

(** The columns of a frame after [df[keys] = values]. *)
Fixpoint assign_columns (keys : list string) (values : list (list V))
         (cols : gmap string (list V)) : gmap string (list V) :=
  match keys, values with
  | c :: keys', col :: values' => assign_columns keys' values' (<[c := col]> cols)
  | _, _ => cols
  end.

(** The cell of column [c] in row [i]. *)
Definition cell (df : DataFrame V) (c : string) (i : nat) : option V :=
  columns df !! c ≫= λ col, col !! i.

(** The clone handed to the engine. *)
Definition partial_run_table (df : DataFrame V) (delays : list V) : DataFrame V :=
  mkDataFrame (nrows df) (<["tphysf" := delays]> (columns df)).

(** The clone when the function returns. *)
Definition spliced_table (df : DataFrame V) (delays tphysf : list V)
           (values : list (list V)) : DataFrame V :=
  mkDataFrame (nrows df)
    (<["tphysf" := tphysf]>
       (assign_columns columns_to_update values
          (<["tphysf" := delays]> (columns df)))).

Definition interaction_warning (ib : list V) : list (warning V) :=
  if decide (0 < length ib) then [UserWarning ib] else [].

(** [m] leaves every object outside [L] as it found it, whether it
    returns or raises. *)
Definition writes_within {A} (L : loc → Prop) (m : M V A) : Prop :=
  ∀ (s : state V) r s', m s = (r, s') → ∀ l, ¬ L l → heap s' !! l = heap s !! l.
End vocabulary.
Arguments writes_within V {A} L m.

(** The columns of the secondary that mirror the updated columns of
    the primary. *)
Definition secondary_columns : list string :=
  ["kstar_2"; "mass_2"; "mass0_2"; "rad_2"; "lum_2"; "massc_2"; "radc_2";
   "menv_2"; "renv_2"; "omega_spin_2"; "B_2"; "bacc_2"; "tacc_2";
   "epoch_2"; "tms_2"; "bhspin_2"].

(** The estimate for one star. *)
Definition t_pre_ms (m : R) : R := (62.8 * Rpower m (-2.5))%R.

(** ** Further vocabulary and examples *)

Section vocabulary_outcomes.
Context {V : Type} `{Dtype V}.

(** The statements of [delay_companions] that follow the engine call,
    for the clone [new_initC] and the history [bpp] (same text as in
    [delay_companions]; [delay_companions_to_engine] relates the two). *)
Definition after_engine (initC new_initC : loc) (bpp : DataFrame V)
  : M V (loc * list V) :=
  updater ← lift (drop_duplicates_last bpp "bin_num");
  interacting_binaries ← lift (interacting bpp);
  _ ← (if decide (0 < length interacting_binaries)
       then warn (UserWarning interacting_binaries)
       else mret ());
  values ← lift (df_values updater columns_to_update);
  _ ← setitem_array new_initC columns_to_update values;
  tphysf ← getitem initC "tphysf";
  _ ← setitem new_initC "tphysf" tphysf;
  mret (new_initC, interacting_binaries).

(** [m] only appends to the log, at most [n] warnings, whether it
    returns or raises. *)
Definition log_grows {A} (n : nat) (m : M V A) : Prop :=
  ∀ (s : state V) r s', m s = (r, s') →
    ∃ w, warnings_log s' = (warnings_log s ++ w)%list ∧ length w ≤ n.
End vocabulary_outcomes.
Arguments log_grows V {A} n m.

(** An engine that answers with the history [bpp] whatever it is given. *)
Definition const_evolve (bpp : DataFrame Z) (table : DataFrame Z) (_ _ : unit)
  : result (DataFrame Z * unit) :=
  Ok (bpp, ()).

(** An engine that fails. *)
Definition failing_evolve (table : DataFrame Z) (_ _ : unit)
  : result (DataFrame Z * unit) :=
  Raise (EngineError "evolution failed").

(** [ex_bpp] without one of its columns. *)
Definition ex_bpp_without (c : string) : DataFrame Z :=
  mkDataFrame 5 (delete c (columns ex_bpp)).

(** A history of three binaries, one more than [ex_initC] has rows; the
    third one records the event code [4]. *)
Definition ex_bpp_three : DataFrame Z :=
  mkDataFrame 3
    (<["bin_num" := [0; 1; 2]]> (<["evol_type" := [1; 1; 4]]>
       (ex_all_columns [10; 20; 30])))%Z.

(** [ex_initC] without its [tphysf] column. *)
Definition ex_initC_no_tphysf : DataFrame Z :=
  mkDataFrame 2 (delete "tphysf" (columns ex_initC)).

Definition ex_state_no_tphysf : state Z :=
  mkState {[ 0 := ex_initC_no_tphysf ]} [].

(** A table of reals without the column [mass_2], and one without
    [mass_1]. *)
Definition ex_masses_no_secondary : DataFrame R :=
  mkDataFrame 2 (<["tphysf" := [10000; 8000]]> ∅)%R.

Definition ex_masses_no_primary : DataFrame R :=
  mkDataFrame 2 (<["mass_2" := [2; 1]]> ∅)%R.

(** [ex_masses] with the two mass columns exchanged. *)
Definition ex_masses_swapped : DataFrame R :=
  mkDataFrame 2
    (<["mass_1" := [2; 1]]> (<["mass_2" := [1; 3]]>
       (<["tphysf" := [10000; 8000]]> ∅)))%R.

(** * Properties *)

(** ** Boolean indexing, [duplicated] and [unique] *)

Section ndarray_facts.
Context {A : Type}.
Implicit Types (mask : list bool) (a : list A).

Lemma compress_nil_r mask : compress mask ([] : list A) = [].
Proof. by destruct mask. Qed.

Lemma elem_of_compress mask a x :
  x ∈ compress mask a ↔ ∃ j, mask !! j = Some true ∧ a !! j = Some x.
Proof.
  revert a. induction mask as [|b mask IH]; intros [|y a]; simpl.
  - split; [by intros ?%elem_of_nil | by intros (j & ? & ?)].
  - split; [by intros ?%elem_of_nil | by intros (j & ? & ?)].
  - split; [by intros ?%elem_of_nil | by intros (j & ? & ?)].
  - destruct b.
    + rewrite elem_of_cons, IH. split.
      * intros [->|(j & ? & ?)]; [by exists 0 | by exists (S j)].
      * intros ([|j] & ? & ?); simplify_eq/=; eauto.
    + rewrite IH. split.
      * intros (j & ? & ?). by exists (S j).
      * intros ([|j] & ? & ?); simplify_eq/=; eauto.
Qed.

Lemma compress_all_false mask a :
  (∀ j, mask !! j ≠ Some true) → compress mask a = [].
Proof.
  intros Hno. destruct (compress mask a) as [|x r] eqn:E; [done|].
  assert (x ∈ compress mask a) as Hx by (rewrite E; left).
  apply elem_of_compress in Hx as (j & ? & _). by destruct (Hno j).
Qed.

End ndarray_facts.

Section selected_rows.
Context {A : Type}.
Implicit Types (mask : list bool) (a : list A).

Lemma compress_seq_rows mask a n :
  length mask = length a →
  Forall2 (λ j x, n ≤ j ∧ a !! (j - n) = Some x)
          (compress mask (seq n (length mask))) (compress mask a).
Proof.
  revert a n. induction mask as [|b mask IH]; intros [|y a] n Hlen;
    simplify_eq/=; [constructor|].
  assert (Forall2 (λ j x, n ≤ j ∧ (y :: a) !! (j - n) = Some x)
            (compress mask (seq (S n) (length mask))) (compress mask a)) as Hrest.
  { eapply Forall2_impl; [apply (IH a (S n)); done|].
    intros j x [Hj Hx]. split; [lia|].
    by replace (j - n) with (S (j - S n)) by lia. }
  destruct b; [|done].
  constructor; [|done]. split; [lia|]. by rewrite Nat.sub_diag.
Qed.

Lemma selected_rows mask a :
  length mask = length a →
  Forall2 (λ j x, a !! j = Some x) (selected mask) (compress mask a).
Proof.
  intros Hlen. eapply Forall2_impl; [by apply (compress_seq_rows mask a 0)|].
  intros j x [_ Hx]. by rewrite Nat.sub_0_r in Hx.
Qed.

Lemma compress_seq_sorted mask n k :
  StronglySorted lt (compress mask (seq n k)) ∧
  Forall (λ j, n ≤ j) (compress mask (seq n k)).
Proof.
  revert n k. induction mask as [|b mask IH]; intros n [|k]; simpl;
    try (split; constructor).
  destruct (IH (S n) k) as [Hs Hge].
  assert (Forall (λ j, n < j) (compress mask (seq (S n) k))) as Hgt.
  { eapply Forall_impl; [done|]. intros; simpl in *; lia. }
  assert (Forall (λ j, n ≤ j) (compress mask (seq (S n) k))) as Hge'.
  { eapply Forall_impl; [done|]. intros; simpl in *; lia. }
  destruct b; [|done].
  split; by constructor.
Qed.

Lemma selected_sorted mask : StronglySorted lt (selected mask).
Proof. apply compress_seq_sorted. Qed.

Lemma elem_of_selected mask j :
  j ∈ selected mask ↔ mask !! j = Some true.
Proof.
  unfold selected. rewrite elem_of_compress. split.
  - intros (i & Hi & Hj). apply lookup_seq in Hj as [-> _]. done.
  - intros Hj. exists j. split; [done|].
    apply lookup_seq. split; [done|]. by apply lookup_lt_Some in Hj.
Qed.

Lemma length_selected mask a :
  length mask = length a →
  length (compress mask (seq 0 (length a))) = length (compress mask a).
Proof.
  intros Hlen. rewrite <- Hlen.
  exact (Forall2_length _ _ _ (selected_rows mask a Hlen)).
Qed.

Context `{EqDecision A}.

Lemma length_duplicated_last a : length (duplicated_last a) = length a.
Proof. induction a; simpl; congruence. Qed.

Lemma keep_last_final_state_row (ids : list A) j :
  (negb <$> duplicated_last ids) !! j = Some true ↔ final_state_row ids j.
Proof.
  revert j. induction ids as [|x ids IH]; intros j.
  - split; [done | by intros (b & ? & _)].
  - destruct j as [|j]; simpl.
    + split.
      * intros Hx. exists x. split; [done|]. intros [|j'] ?; [lia|]. simpl.
        intros Hj'. apply list_elem_of_lookup_2 in Hj'.
        case_bool_decide; by simplify_eq/=.
      * intros (b & ? & Hlater). simplify_eq/=. f_equal.
        case_bool_decide as Hin; [|done].
        apply list_elem_of_lookup_1 in Hin as [i Hi].
        by destruct (Hlater (S i) ltac:(lia)).
    + rewrite IH. split.
      * intros (b & ? & Hlater). exists b. split; [done|].
        intros [|j'] ?; [lia|]. apply Hlater. lia.
      * intros (b & ? & Hlater). exists b. split; [done|].
        intros j' ?. apply (Hlater (S j')). lia.
Qed.

Lemma unique_from_spec (seen a : list A) :
  NoDup (unique_from seen a) ∧
  ∀ x, x ∈ unique_from seen a ↔ x ∈ a ∧ x ∉ seen.
Proof.
  revert seen. induction a as [|y a IH]; intros seen; simpl.
  - split; [constructor|]. intros x. rewrite elem_of_nil. tauto.
  - case_decide as Hy.
    + destruct (IH seen) as [Hnd Hin]. split; [done|].
      intros x. rewrite Hin, elem_of_cons.
      split; [tauto|]. intros [[->|?] ?]; tauto.
    + destruct (IH (y :: seen)) as [Hnd Hin]. split.
      * constructor; [|done]. rewrite Hin, elem_of_cons. tauto.
      * intros x. rewrite !elem_of_cons, Hin, elem_of_cons.
        destruct (decide (x = y)) as [->|]; tauto.
Qed.

Lemma NoDup_unique (a : list A) : NoDup (unique a).
Proof. apply unique_from_spec. Qed.

Lemma elem_of_unique (a : list A) x : x ∈ unique a ↔ x ∈ a.
Proof.
  unfold unique. rewrite (proj2 (unique_from_spec [] a)), elem_of_nil. tauto.
Qed.
End selected_rows.

(** ** The monad and the heap *)

Section monad_facts.
Context {V : Type}.
Implicit Types (s : state V) (df : DataFrame V) (l : loc).

Lemma bind_run {A B} (m : M V A) (f : A → M V B) s :
  (m ≫= f) s =
  match m s with
  | (Ok a, s1) => f a s1
  | (Raise e, s1) => (Raise e, s1)
  end.
Proof. reflexivity. Qed.

Lemma bind_Ok {A B} (m : M V A) (f : A → M V B) s b s' :
  (m ≫= f) s = (Ok b, s') ↔
  ∃ a s1, m s = (Ok a, s1) ∧ f a s1 = (Ok b, s').
Proof.
  rewrite bind_run. destruct (m s) as [[a|e] s1]; split.
  - eauto.
  - by intros (? & ? & [= -> ->] & ?).
  - done.
  - by intros (? & ? & ? & _).
Qed.

Lemma lift_Ok {A} (r : result A) s a s' :
  lift r s = (Ok a, s') ↔ r = Ok a ∧ s' = s.
Proof. unfold lift. split; [by intros [= -> ->] | by intros [-> ->]]. Qed.

Lemma deref_Ok l s df s' :
  deref l s = (Ok df, s') ↔ heap s !! l = Some df ∧ s' = s.
Proof.
  unfold deref. destruct (heap s !! l); split;
    try (by intros [= -> ->]); try (by intros [[= ->] ->]); by intros [? _].
Qed.

Lemma fresh_loc_fresh (h : gmap loc (DataFrame V)) : h !! fresh_loc h = None.
Proof. apply not_elem_of_dom, is_fresh. Qed.

Lemma copy_Ok l s l' s' :
  copy l s = (Ok l', s') ↔
  ∃ df, heap s !! l = Some df ∧ l' = fresh_loc (heap s) ∧
        s' = mkState (<[l' := df]> (heap s)) (warnings_log s).
Proof.
  unfold copy. rewrite bind_Ok. split.
  - intros (df & s1 & [? ->]%deref_Ok & [= <- <-]). eauto.
  - intros (df & ? & -> & ->). exists df, s. by rewrite deref_Ok.
Qed.

Lemma getitem_Ok l c s col s' :
  getitem l c s = (Ok col, s') ↔
  ∃ df, heap s !! l = Some df ∧ columns df !! c = Some col ∧ s' = s.
Proof.
  unfold getitem. rewrite bind_Ok. split.
  - intros (df & s1 & [? ->]%deref_Ok & [Hc ->]%lift_Ok).
    exists df. unfold df_getitem in Hc.
    destruct (columns df !! c); by simplify_eq.
  - intros (df & ? & Hc & ->). exists df, s. rewrite deref_Ok, lift_Ok.
    unfold df_getitem. by rewrite Hc.
Qed.

Lemma setitem_Ok l c (values : list V) s u s' :
  setitem l c values s = (Ok u, s') ↔
  ∃ df, heap s !! l = Some df ∧ length values = nrows df ∧
        s' = mkState
               (<[l := mkDataFrame (nrows df) (<[c := values]> (columns df))]> (heap s))
               (warnings_log s).
Proof.
  unfold setitem. rewrite bind_Ok. split.
  - intros (df & s1 & [? ->]%deref_Ok & (df' & s2 & [Hset ->]%lift_Ok & Hst)%bind_Ok).
    exists df. unfold df_setitem in Hset. case_decide; [|done].
    unfold store in Hst. by simplify_eq.
  - intros (df & ? & Hlen & ->). exists df, s. rewrite deref_Ok. split; [done|].
    apply bind_Ok. eexists _, s. rewrite lift_Ok. unfold df_setitem.
    rewrite decide_True by done. split; [done|]. by destruct u.
Qed.

Lemma lookup_assign_columns_ne keys (values : list (list V)) cols c :
  c ∉ keys → assign_columns keys values cols !! c = cols !! c.
Proof.
  revert values cols. induction keys as [|k keys IH]; intros [|v values] cols Hc;
    simpl; try done.
  apply not_elem_of_cons in Hc as [? ?].
  rewrite IH by done. by apply lookup_insert_ne.
Qed.

Lemma lookup_assign_columns keys (values : list (list V)) cols i c col :
  NoDup keys → keys !! i = Some c → values !! i = Some col →
  assign_columns keys values cols !! c = Some col.
Proof.
  revert values cols i.
  induction keys as [|k keys IH]; intros [|v values] cols [|i] Hnd Hk Hv;
    simplify_eq/=; apply NoDup_cons in Hnd as [Hk' Hnd].
  - rewrite lookup_assign_columns_ne by done. apply lookup_insert_eq.
  - by eapply IH.
Qed.

Lemma setitem_columns_Ok l keys (values : list (list V)) s df u s' :
  length values = length keys →
  heap s !! l = Some df →
  setitem_columns l keys values s = (Ok u, s') ↔
  Forall (λ col, length col = nrows df) values ∧
  s' = mkState
         (<[l := mkDataFrame (nrows df) (assign_columns keys values (columns df))]> (heap s))
         (warnings_log s).
Proof.
  revert values s df.
  induction keys as [|k keys IH]; intros [|v values] s df Hlen Hl; simplify_eq/=.
  - destruct u. unfold mret, M_ret. split.
    + intros [= <-]. split; [constructor|]. destruct s as [h w], df; simpl in *.
      by rewrite insert_id.
    + intros [_ ->]. destruct s as [h w], df; simpl in *.
      by rewrite insert_id.
  - rewrite bind_Ok. split.
    + intros (? & s1 & (df' & ? & Hv & ->)%setitem_Ok & Hrest). simplify_eq.
      eapply IH in Hrest as [Hall ->]; [|done|simpl; apply lookup_insert_eq].
      simpl in *. split; [by constructor|]. by rewrite insert_insert_eq.
    + intros [[Hv Hall]%Forall_cons ->].
      eexists (), _. split; [apply setitem_Ok; eauto|].
      eapply IH; [done|simpl; apply lookup_insert_eq|].
      simpl. split; [done|]. by rewrite insert_insert_eq.
Qed.

Lemma df_select_Ok df keys (cols : list (list V)) :
  df_select df keys = Ok cols ↔
  Forall2 (λ c col, columns df !! c = Some col) keys cols.
Proof.
  revert cols. induction keys as [|k keys IH]; intros cols; simpl.
  - split; [intros [= <-]; constructor | by intros ->%Forall2_nil_inv_l].
  - unfold df_getitem. destruct (columns df !! k) as [col|] eqn:Hk.
    + destruct (df_select df keys) as [rest|e] eqn:Hrest; split.
      * intros [= <-]. constructor; [done|]. by apply IH.
      * intros (col' & cols' & ? & Hcols & ->)%Forall2_cons_inv_l.
        apply IH in Hcols. by simplify_eq.
      * done.
      * intros (col' & cols' & ? & Hcols & ->)%Forall2_cons_inv_l.
        apply IH in Hcols. by simplify_eq.
    + split; [done|].
      intros (col' & cols' & ? & _)%Forall2_cons_inv_l. by simplify_eq.
Qed.
End monad_facts.

(** ** The array behind [.values] *)

Section values_facts.
Context {V : Type} `{Dtype V}.
Implicit Types (df : DataFrame V) (cols values : list (list V)).

(** The cast changes a cell only when the cell is not a float64 and a
    float64 stands among the assembled columns. *)
Lemma common_cast_spec cols x :
  common_cast cols x = x ∨
  (common_cast cols x = upcast x ∧ is_float x = false ∧
   ∃ col y, col ∈ cols ∧ y ∈ col ∧ is_float y = true).
Proof.
  unfold common_cast.
  destruct (existsb (existsb is_float) cols) eqn:Hany; [|by left].
  destruct (is_float x) eqn:Hx; [left; by apply upcast_float|].
  right. split; [done|]. split; [done|].
  apply existsb_exists in Hany as (col & Hcol & Hany).
  apply existsb_exists in Hany as (y & Hy & Hfloat).
  exists col, y. by rewrite !list_elem_of_In.
Qed.

Lemma common_cast_float cols x :
  is_float x = true → common_cast cols x = x.
Proof.
  intros Hx. destruct (common_cast_spec cols x) as [?|(_ & Hx' & _)];
    [done|congruence].
Qed.

Lemma common_cast_no_float cols x :
  Forall (Forall (λ y, is_float y = false)) cols → common_cast cols x = x.
Proof.
  intros Hnone.
  destruct (common_cast_spec cols x) as [?|(_ & _ & col & y & Hcol & Hy & Hfloat)];
    [done|].
  pose proof (proj1 (Forall_forall _ _) (proj1 (Forall_forall _ _) Hnone col Hcol)
                y Hy) as Hnot.
  simpl in Hnot. congruence.
Qed.

Lemma common_cast_some_float cols col y x :
  col ∈ cols → y ∈ col → is_float y = true →
  common_cast cols x = upcast x.
Proof.
  intros Hcol Hy Hfloat. unfold common_cast.
  assert (existsb (existsb is_float) cols = true) as ->; [|done].
  apply existsb_exists. exists col. split; [by apply list_elem_of_In|].
  apply existsb_exists. exists y. split; [by apply list_elem_of_In|done].
Qed.

Lemma df_values_Ok df keys values :
  df_values df keys = Ok values ↔
  ∃ cols, Forall2 (λ c col, columns df !! c = Some col) keys cols ∧
          values = astype_common cols.
Proof.
  unfold df_values. destruct (df_select df keys) as [cols|e] eqn:Hsel; split.
  - intros [= <-]. exists cols. by apply df_select_Ok in Hsel.
  - intros (cols' & Hcols & ->). apply df_select_Ok in Hcols. congruence.
  - done.
  - intros (cols' & Hcols & _). apply df_select_Ok in Hcols. congruence.
Qed.

(** Column by column: the array holds the cells of the frame, cast. *)
Lemma df_values_cells df keys values :
  df_values df keys = Ok values →
  ∃ cols,
    Forall2 (λ c col, columns df !! c = Some col) keys cols ∧
    Forall2 (λ c col, ∃ hist, columns df !! c = Some hist ∧
                              col = common_cast cols <$> hist) keys values.
Proof.
  intros (cols & Hcols & ->)%df_values_Ok. exists cols. split; [done|].
  unfold astype_common. apply Forall2_fmap_r.
  eapply Forall2_impl; [exact Hcols|]. intros c col Hc. simpl.
  by exists col.
Qed.

Lemma df_values_columns df keys values :
  df_values df keys = Ok values →
  Forall2 (λ c col, ∃ hist, columns df !! c = Some hist ∧
                            length col = length hist) keys values.
Proof.
  intros (cols & _ & Hcells)%df_values_cells.
  eapply Forall2_impl; [exact Hcells|].
  intros c col (hist & Hc & ->). exists hist. by rewrite length_fmap.
Qed.

Lemma df_values_length df keys values :
  df_values df keys = Ok values → length keys = length values.
Proof. intros Hv%df_values_columns. by eapply Forall2_length. Qed.
End values_facts.

(** ** What a successful call of [delay_companions] has done *)

Section delayer_facts.
Context {V : Type} `{Dtype V} {BSEDict Pool Aux : Type}.
Variable Evolve_evolve :
  DataFrame V → BSEDict → Pool → result (DataFrame V * Aux).
Implicit Types (s : state V) (df bpp updater : DataFrame V).

Lemma NoDup_columns_to_update : NoDup columns_to_update.
Proof. apply (bool_decide_unpack _). by vm_compute. Qed.

Lemma tphysf_not_updated : "tphysf" ∉ columns_to_update.
Proof. apply (bool_decide_unpack _). by vm_compute. Qed.

Opaque columns_to_update.

(** The call returns exactly when every step succeeds, and then the
    final state is the initial one with the spliced clone added. *)
Lemma delay_companions_Ok initC delays pool bse s new_initC ib s' :
  delay_companions Evolve_evolve initC delays pool bse s
    = (Ok (new_initC, ib), s') ↔
  ∃ df bpp aux updater values tphysf,
    heap s !! initC = Some df ∧
    new_initC = fresh_loc (heap s) ∧
    length delays = nrows df ∧
    Evolve_evolve (partial_run_table df delays) bse pool = Ok (bpp, aux) ∧
    drop_duplicates_last bpp "bin_num" = Ok updater ∧
    interacting bpp = Ok ib ∧
    df_values updater columns_to_update = Ok values ∧
    Forall (λ col, length col = nrows df) values ∧
    columns df !! "tphysf" = Some tphysf ∧
    length tphysf = nrows df ∧
    s' = mkState (<[new_initC := spliced_table df delays tphysf values]> (heap s))
                 (warnings_log s ++ interaction_warning ib).
Proof.
  unfold delay_companions. split.
  - intros (l & s1 & (df & Hdf & -> & ->)%copy_Ok & Hrun)%bind_Ok.
    pose proof (fresh_loc_fresh (heap s)) as Hfresh.
    set (l := fresh_loc (heap s)) in *.
    apply bind_Ok in Hrun as (? & s2 & (df1 & Hdf1 & Hlen & ->)%setitem_Ok & Hrun).
    simpl in Hdf1. rewrite lookup_insert_eq in Hdf1. simplify_eq.
    simpl in Hrun. rewrite insert_insert_eq in Hrun.
    apply bind_Ok in Hrun as (table & s3 & [Htable ->]%deref_Ok & Hrun).
    simpl in Htable. rewrite lookup_insert_eq in Htable. simplify_eq.
    apply bind_Ok in Hrun as ([bpp aux] & s4 & [Hevolve ->]%lift_Ok & Hrun).
    apply bind_Ok in Hrun as (updater & s5 & [Hupd ->]%lift_Ok & Hrun).
    apply bind_Ok in Hrun as (ib' & s6 & [Hib ->]%lift_Ok & Hrun).
    apply bind_Ok in Hrun as (? & s7 & Hwarn & Hrun).
    assert (s7 = mkState (<[l := partial_run_table df1 delays]> (heap s))
                         (warnings_log s ++ interaction_warning ib')) as ->.
    { unfold interaction_warning. case_decide.
      - unfold warn in Hwarn. by simplify_eq/=.
      - unfold mret, M_ret in Hwarn. simplify_eq/=. by rewrite app_nil_r. }
    apply bind_Ok in Hrun as (values & s8 & [Hvalues ->]%lift_Ok & Hrun).
    apply bind_Ok in Hrun as (? & s9 & Harr & Hrun).
    clear Hwarn. unfold setitem_array, raise in Harr.
    case_decide as Hshape; [|done].
    apply (setitem_columns_Ok l _ _ _ (partial_run_table df1 delays)) in Harr
      as [Hall ->]; [|done|simpl; apply lookup_insert_eq].
    simpl in Hrun. rewrite insert_insert_eq in Hrun.
    apply bind_Ok in Hrun as (tphysf & s10 & (df' & Hdf' & Htphysf & ->)%getitem_Ok & Hrun).
    simpl in Hdf'. rewrite lookup_insert_ne in Hdf' by congruence. simplify_eq.
    apply bind_Ok in Hrun as (? & s11 & (df2 & Hdf2 & Hlen2 & ->)%setitem_Ok & Hrun).
    simpl in Hdf2. rewrite lookup_insert_eq in Hdf2. simplify_eq.
    unfold mret, M_ret in Hrun. simplify_eq/=. rewrite insert_insert_eq.
    eexists _, bpp, aux, updater, values, tphysf. split_and!; done.
  - intros (df & bpp & aux & updater & values & tphysf & Hdf & -> & Hlen & Hevolve
            & Hupd & Hib & Hvalues & Hall & Htphysf & Hlen' & ->).
    pose proof (fresh_loc_fresh (heap s)) as Hfresh.
    set (l := fresh_loc (heap s)) in *.
    apply bind_Ok. eexists l, _. split; [apply copy_Ok; eauto|].
    apply bind_Ok. eexists (), _. split.
    { apply setitem_Ok. eexists. simpl. rewrite lookup_insert_eq. eauto. }
    simpl. rewrite insert_insert_eq.
    apply bind_Ok. eexists _, _. split.
    { apply deref_Ok. simpl. rewrite lookup_insert_eq. eauto. }
    apply bind_Ok. eexists (bpp, aux), _. split; [by apply lift_Ok|].
    apply bind_Ok. eexists updater, _. split; [by apply lift_Ok|].
    apply bind_Ok. eexists ib, _. split; [by apply lift_Ok|].
    apply bind_Ok.
    eexists (), (mkState (<[l := partial_run_table df delays]> (heap s))
                         (warnings_log s ++ interaction_warning ib)). split.
    { unfold interaction_warning. case_decide; [done|].
      unfold mret, M_ret. simpl. by rewrite app_nil_r. }
    apply bind_Ok. eexists values, _. split; [by apply lift_Ok|].
    assert (length values = length columns_to_update) as Hshape.
    { apply df_values_length in Hvalues. done. }
    apply bind_Ok. eexists (), _. split.
    { unfold setitem_array. rewrite decide_True by done.
      eapply setitem_columns_Ok; [done|simpl; apply lookup_insert_eq|done]. }
    simpl. rewrite insert_insert_eq.
    apply bind_Ok. eexists tphysf, _. split.
    { apply getitem_Ok. exists df. simpl.
      rewrite lookup_insert_ne by congruence. done. }
    apply bind_Ok. eexists (), _. split.
    { apply setitem_Ok. eexists. simpl. rewrite lookup_insert_eq.
      split; [done|]. by split. }
    simpl. by rewrite insert_insert_eq.
Qed.
End delayer_facts.

(** ** Which objects a statement may write to *)

Section footprint.
Context {V : Type}.
Implicit Types (s : state V) (l : loc) (L : loc → Prop).

Lemma writes_within_ret {A} L (a : A) : writes_within V L (mret a).
Proof. by intros s r s' [= _ <-]. Qed.

Lemma writes_within_lift {A} L (r : result A) : writes_within V L (lift r).
Proof. by intros s r' s' [= _ <-]. Qed.

Lemma writes_within_raise {A} L e : writes_within V L (raise e : M V A).
Proof. by intros s r' s' [= _ <-]. Qed.

Lemma writes_within_warn L w : writes_within V L (warn w).
Proof. by intros s r' s' [= _ <-]. Qed.

Lemma writes_within_deref L l : writes_within V L (deref l).
Proof.
  intros s r' s'. unfold deref. by destruct (heap s !! l); intros [= _ <-].
Qed.

Lemma writes_within_store L l df : L l → writes_within V L (store l df).
Proof.
  intros Hl s r' s' [= _ <-] l' Hl'. simpl.
  apply lookup_insert_ne. by intros ->.
Qed.

Lemma writes_within_bind {A B} L (m : M V A) (f : A → M V B) :
  writes_within V L m → (∀ a, writes_within V L (f a)) →
  writes_within V L (m ≫= f).
Proof.
  intros Hm Hf s r s'. rewrite bind_run.
  destruct (m s) as [[a|e] s1] eqn:E.
  - intros Hfa l Hl. rewrite (Hf a _ _ _ Hfa l Hl). by eapply Hm.
  - intros [= _ <-] l Hl. by eapply Hm.
Qed.

Create HintDb footprint discriminated.
Hint Resolve writes_within_ret writes_within_lift writes_within_raise
  writes_within_warn writes_within_deref writes_within_store : footprint.

Ltac footprint :=
  repeat first
    [ apply writes_within_bind; [|intros ?]
    | solve [auto with footprint] ].

Lemma writes_within_getitem L l c : writes_within V L (getitem l c).
Proof. unfold getitem. footprint. Qed.

Lemma writes_within_setitem L l c values :
  L l → writes_within V L (setitem l c values).
Proof. intros. unfold setitem. footprint. Qed.

Lemma writes_within_setitem_columns L l keys values :
  L l → writes_within V L (setitem_columns l keys values).
Proof.
  intros Hl. revert values.
  induction keys as [|c keys IH]; intros [|col values]; simpl;
    try apply writes_within_ret.
  apply writes_within_bind; [by apply writes_within_setitem|intros _; apply IH].
Qed.

Lemma writes_within_setitem_array L l keys values :
  L l → writes_within V L (setitem_array l keys values).
Proof.
  intros Hl. unfold setitem_array. case_decide; [|footprint].
  by apply writes_within_setitem_columns.
Qed.

Lemma copy_Raise l s e s' : copy l s = (Raise e, s') → s' = s.
Proof.
  unfold copy, deref, alloc. rewrite bind_run.
  destruct (heap s !! l); by intros [= _ <-].
Qed.

Context `{Dtype V} {BSEDict Pool Aux : Type}.
Variable Evolve_evolve :
  DataFrame V → BSEDict → Pool → result (DataFrame V * Aux).

(** Every write of [delay_companions] goes to the clone it has
    allocated. *)
Lemma delay_companions_footprint initC delays pool bse s r s' l :
  delay_companions Evolve_evolve initC delays pool bse s = (r, s') →
  l ≠ fresh_loc (heap s) → heap s' !! l = heap s !! l.
Proof.
  unfold delay_companions. rewrite bind_run.
  destruct (copy initC s) as [[new_initC|e] s1] eqn:Hcopy.
  - apply copy_Ok in Hcopy as (df & _ & -> & ->). intros Hrun Hl.
    set (new_initC := fresh_loc (heap s)) in *.
    match type of Hrun with
    | ?m _ = _ => assert (writes_within V (eq new_initC) m) as Hw
    end.
    { apply writes_within_bind; [by apply writes_within_setitem|intros _].
      apply writes_within_bind; [footprint|intros table].
      apply writes_within_bind; [footprint|intros [bpp aux]].
      apply writes_within_bind; [footprint|intros updater].
      apply writes_within_bind; [footprint|intros interacting_binaries].
      apply writes_within_bind; [case_decide; footprint|intros _].
      apply writes_within_bind; [footprint|intros values].
      apply writes_within_bind; [by apply writes_within_setitem_array|intros _].
      apply writes_within_bind; [apply writes_within_getitem|intros tphysf].
      apply writes_within_bind; [by apply writes_within_setitem|intros _].
      footprint. }
    rewrite (Hw _ _ _ Hrun l) by congruence.
    simpl. apply lookup_insert_ne. congruence.
  - apply copy_Raise in Hcopy as ->. by intros [= _ <-].
Qed.
End footprint.

(** ** Row selection on frames *)

Section frame_facts.
Context {V : Type} `{Dtype V}.
Implicit Types (df bpp updater : DataFrame V).

Lemma lookup_df_mask df mask c :
  columns (df_mask df mask) !! c = compress mask <$> columns df !! c.
Proof. unfold df_mask. simpl. apply lookup_fmap. Qed.

Lemma df_getitem_Ok df c col :
  df_getitem df c = Ok col ↔ columns df !! c = Some col.
Proof.
  unfold df_getitem. destruct (columns df !! c); split; intros; by simplify_eq.
Qed.

Lemma drop_duplicates_last_Ok df c updater :
  drop_duplicates_last df c = Ok updater ↔
  ∃ ids, columns df !! c = Some ids ∧
         updater = df_mask df (negb <$> duplicated_last ids).
Proof.
  unfold drop_duplicates_last, df_getitem.
  destruct (columns df !! c) as [ids|]; split.
  - intros [= <-]. eauto.
  - by intros (? & [= <-] & ->).
  - done.
  - by intros (? & ? & _).
Qed.

Lemma interacting_Ok bpp ib :
  interacting bpp = Ok ib ↔
  ∃ ids evol,
    columns bpp !! "bin_num" = Some ids ∧
    columns bpp !! "evol_type" = Some evol ∧
    ib = unique (compress (between 3 8 <$> evol) ids).
Proof.
  unfold interacting, df_getitem.
  destruct (columns bpp !! "evol_type") as [evol|]; simpl.
  - rewrite lookup_fmap.
    destruct (columns bpp !! "bin_num") as [ids|]; simpl; split.
    + intros [= <-]. eauto.
    + by intros (? & ? & [= <-] & [= <-] & ->).
    + done.
    + by intros (? & ? & ? & _).
  - split; [done|]. by intros (? & ? & _ & ? & _).
Qed.

Lemma assign_columns_wf n keys (values : list (list V)) cols :
  Forall (λ col, length col = n) values →
  map_Forall (λ _ col, length col = n) cols →
  map_Forall (λ _ col, length col = n) (assign_columns keys values cols).
Proof.
  revert values cols. induction keys as [|k keys IH]; intros [|v values] cols;
    simpl; try done.
  intros [Hv Hall]%Forall_cons Hcols. apply IH; [done|].
  by apply map_Forall_insert_2.
Qed.
End frame_facts.

Lemma between_Z lo hi (x : Z) :
  between lo hi x = true ↔ (lo ≤ x ≤ hi)%Z.
Proof.
  unfold between. simpl. rewrite andb_true_iff, !Z.leb_le. done.
Qed.

Lemma between_R lo hi (x : R) :
  between lo hi x = true ↔ (IZR lo <= x <= IZR hi)%R.
Proof.
  unfold between. simpl. rewrite andb_true_iff.
  destruct (Rle_dec (IZR lo) x), (Rle_dec x (IZR hi)); intuition congruence.
Qed.

(** ** The claims about [delay_companions] *)

Opaque columns_to_update.

Section delayer_claims.
Context {V : Type} `{Dtype V} {BSEDict Pool Aux : Type}.
Variable Evolve_evolve :
  DataFrame V → BSEDict → Pool → result (DataFrame V * Aux).
Implicit Types (s : state V) (df bpp out : DataFrame V).

Lemma lookup_spliced_tphysf df (delays tphysf : list V) values :
  columns (spliced_table df delays tphysf values) !! "tphysf" = Some tphysf.
Proof. apply lookup_insert_eq. Qed.

Lemma lookup_spliced_other df (delays tphysf : list V) values c :
  c ∉ columns_to_update → c ≠ "tphysf" →
  columns (spliced_table df delays tphysf values) !! c = columns df !! c.
Proof.
  intros Hc Hne. unfold spliced_table. simpl.
  rewrite lookup_insert_ne by done.
  rewrite lookup_assign_columns_ne by done.
  by rewrite lookup_insert_ne.
Qed.

Lemma lookup_spliced_updated df (delays tphysf : list V) values i c col :
  columns_to_update !! i = Some c → values !! i = Some col →
  columns (spliced_table df delays tphysf values) !! c = Some col.
Proof.
  intros Hc Hcol. unfold spliced_table. simpl.
  assert (c ≠ "tphysf") as Hne.
  { intros ->. apply tphysf_not_updated. by eapply list_elem_of_lookup_2. }
  rewrite lookup_insert_ne by done.
  eapply lookup_assign_columns; eauto using NoDup_columns_to_update.
Qed.

Lemma spliced_table_wf df (delays tphysf : list V) values :
  frame_wf df → length delays = nrows df → length tphysf = nrows df →
  Forall (λ col, length col = nrows df) values →
  frame_wf (spliced_table df delays tphysf values).
Proof.
  intros Hwf Hd Ht Hv. unfold frame_wf, spliced_table. simpl.
  apply map_Forall_insert_2; [done|].
  apply assign_columns_wf; [done|].
  by apply map_Forall_insert_2.
Qed.

(** [delay_companions_Ok] read at a given content of the input. *)
Lemma delay_companions_Ok_at initC delays pool bse s new_initC ib s' df :
  delay_companions Evolve_evolve initC delays pool bse s
    = (Ok (new_initC, ib), s') →
  heap s !! initC = Some df →
  ∃ bpp aux updater values tphysf,
    new_initC = fresh_loc (heap s) ∧
    length delays = nrows df ∧
    Evolve_evolve (partial_run_table df delays) bse pool = Ok (bpp, aux) ∧
    drop_duplicates_last bpp "bin_num" = Ok updater ∧
    interacting bpp = Ok ib ∧
    df_values updater columns_to_update = Ok values ∧
    Forall (λ col, length col = nrows df) values ∧
    columns df !! "tphysf" = Some tphysf ∧
    length tphysf = nrows df ∧
    s' = mkState (<[new_initC := spliced_table df delays tphysf values]> (heap s))
                 (warnings_log s ++ interaction_warning ib).
Proof.
  intros (df' & bpp & aux & updater & values & tphysf & Hdf & Hrest)%delay_companions_Ok
         Hdf0.
  rewrite Hdf in Hdf0. injection Hdf0 as ->.
  by exists bpp, aux, updater, values, tphysf.
Qed.

(** C1: the [tphysf] column of the returned table is the [tphysf]
    column of the input table, value for value, whatever [delays] were
    written into the clone for the partial run. *)
Theorem tphysf_restored initC delays pool bse s new_initC ib s' df :
  delay_companions Evolve_evolve initC delays pool bse s
    = (Ok (new_initC, ib), s') →
  heap s !! initC = Some df →
  ∃ out tphysf,
    heap s' !! new_initC = Some out ∧
    columns df !! "tphysf" = Some tphysf ∧
    columns out !! "tphysf" = Some tphysf.
Proof.
  intros Hrun Hdf.
  destruct (delay_companions_Ok_at _ _ _ _ _ _ _ _ _ Hrun Hdf)
    as (bpp & aux & updater & values & tphysf & -> & _ & _ & _ & _ & _ & _
        & Htphysf & _ & ->).
  eexists _, tphysf. simpl. rewrite lookup_insert_eq.
  split; [done|]. split; [done|]. apply lookup_spliced_tphysf.
Qed.

(** C4: the returned table has as many rows as the input, and its
    [bin_num] column is the input's, entry by entry and in the same
    order; it is therefore duplicate-free when the input's is.  The
    shape invariant of the input carries over to the output. *)
Theorem rows_and_identifiers_kept initC delays pool bse s new_initC ib s' df :
  delay_companions Evolve_evolve initC delays pool bse s
    = (Ok (new_initC, ib), s') →
  heap s !! initC = Some df →
  ∃ out,
    heap s' !! new_initC = Some out ∧
    nrows out = nrows df ∧
    columns out !! "bin_num" = columns df !! "bin_num" ∧
    (∀ ids, columns df !! "bin_num" = Some ids → NoDup ids →
            ∃ ids', columns out !! "bin_num" = Some ids' ∧
                    (∀ i, ids' !! i = ids !! i) ∧ NoDup ids') ∧
    (frame_wf df → frame_wf out).
Proof.
  intros Hrun Hdf.
  destruct (delay_companions_Ok_at _ _ _ _ _ _ _ _ _ Hrun Hdf)
    as (bpp & aux & updater & values & tphysf & -> & Hlen & _ & _ & _ & _ & Hall
        & Htphysf & Hlen' & ->).
  eexists. simpl. rewrite lookup_insert_eq. split; [done|].
  assert (columns (spliced_table df delays tphysf values) !! "bin_num"
          = columns df !! "bin_num") as Hbin.
  { apply lookup_spliced_other; [|done].
    apply (bool_decide_unpack _). by vm_compute. }
  split_and!; [done|done| |by intros; apply spliced_table_wf].
  intros ids Hids Hnd. exists ids. by rewrite Hbin.
Qed.

(** C9: every column other than the eighteen updated ones and
    [tphysf] has, in the returned table, the value it has in the
    input; in particular no column of the secondary is overwritten. *)
Theorem other_columns_kept initC delays pool bse s new_initC ib s' df :
  delay_companions Evolve_evolve initC delays pool bse s
    = (Ok (new_initC, ib), s') →
  heap s !! initC = Some df →
  ∃ out,
    heap s' !! new_initC = Some out ∧
    (∀ c, c ∉ columns_to_update → c ≠ "tphysf" →
          columns out !! c = columns df !! c) ∧
    Forall (λ c, columns out !! c = columns df !! c) secondary_columns.
Proof.
  intros Hrun Hdf.
  destruct (delay_companions_Ok_at _ _ _ _ _ _ _ _ _ Hrun Hdf)
    as (bpp & aux & updater & values & tphysf & -> & _ & _ & _ & _ & _ & _
        & _ & _ & ->).
  eexists. simpl. rewrite lookup_insert_eq. split; [done|].
  split; [by intros; apply lookup_spliced_other|].
  apply Forall_forall. intros c Hc.
  assert ((c ∉ columns_to_update) ∧ c ≠ "tphysf") as [? ?].
  { revert c Hc. apply Forall_forall.
    apply (bool_decide_unpack _). by vm_compute. }
  by apply lookup_spliced_other.
Qed.

(** C8: the call never writes to an object that existed before it,
    the caller's table included, whether it returns or raises; the
    table it returns is a new object. *)
Theorem input_never_mutated initC delays pool bse s r s' :
  delay_companions Evolve_evolve initC delays pool bse s = (r, s') →
  (∀ l, l ∈ dom (heap s) → heap s' !! l = heap s !! l) ∧
  heap s' !! initC = heap s !! initC ∧
  (∀ new_initC ib, r = Ok (new_initC, ib) →
     (new_initC ∉ dom (heap s)) ∧ new_initC ≠ initC ∧
     is_Some (heap s' !! new_initC)).
Proof.
  intros Hrun.
  assert (∀ l, l ∈ dom (heap s) → heap s' !! l = heap s !! l) as Hold.
  { intros l Hl. eapply delay_companions_footprint; [done|].
    intros ->. apply elem_of_dom in Hl as [? Hl].
    by rewrite fresh_loc_fresh in Hl. }
  split; [done|]. split.
  - destruct (heap s !! initC) as [df|] eqn:Hdf.
    + rewrite <- Hdf. apply Hold, elem_of_dom. eauto.
    + revert Hrun. unfold delay_companions, copy, deref.
      rewrite !bind_run, Hdf. by intros [= _ <-].
  - intros new_initC ib ->.
    apply delay_companions_Ok in Hrun
      as (df & bpp & aux & updater & values & tphysf & Hdf & -> & _ & _ & _ & _
          & _ & _ & _ & _ & ->).
    pose proof (fresh_loc_fresh (heap s)) as Hfresh.
    split_and!.
    + by apply not_elem_of_dom.
    + intros Heq. rewrite Heq in Hfresh. congruence.
    + simpl. rewrite lookup_insert_eq. eauto.
Qed.
End delayer_claims.

Section splice_claims.
Context {V : Type} `{Dtype V} {BSEDict Pool Aux : Type}.
Variable Evolve_evolve :
  DataFrame V → BSEDict → Pool → result (DataFrame V * Aux).
Implicit Types (s : state V) (df bpp out : DataFrame V).

Lemma lookup_between_mask (evol : list V) j :
  (between 3 8 <$> evol) !! j = Some true ↔
  ∃ e, evol !! j = Some e ∧ between 3 8 e = true.
Proof.
  rewrite list_lookup_fmap. destruct (evol !! j) as [e|]; simpl; split.
  - intros [= ?]. eauto.
  - by intros (? & [= <-] & ->).
  - done.
  - by intros (? & ? & _).
Qed.


Lemma between_spelled (e : V) :
  between 3 8 e = true ↔
  cell_le (of_int 3) e = true ∧ cell_le e (of_int 8) = true.
Proof. unfold between. apply andb_true_iff. Qed.

Lemma between_of_int (k : Z) :
  between 3 8 (of_int k : V) = true ↔ (3 ≤ k ≤ 8)%Z.
Proof.
  rewrite between_spelled, !cell_le_of_int, !Z.leb_le. done.
Qed.

(** C3: the identifiers returned are, without repetition, exactly the
    [bin_num] of the history rows whose [evol_type] [e] passes both tests
    of the source, [e >= 3] and [e <= 8]; on a history whose event codes
    are integers these are the rows with a code [k], [3 <= k <= 8].
    Without such a row nothing is returned and no warning is raised, and
    with one its identifier is returned and one warning is raised. *)
Theorem interacting_binaries_detected
        initC delays pool bse s new_initC ib s' df bpp aux :
  delay_companions Evolve_evolve initC delays pool bse s
    = (Ok (new_initC, ib), s') →
  heap s !! initC = Some df →
  Evolve_evolve (partial_run_table df delays) bse pool = Ok (bpp, aux) →
  ∃ ids evol,
    columns bpp !! "bin_num" = Some ids ∧
    columns bpp !! "evol_type" = Some evol ∧
    NoDup ib ∧
    (∀ b, b ∈ ib ↔
          ∃ j e, ids !! j = Some b ∧ evol !! j = Some e ∧
                 cell_le (of_int 3) e = true ∧ cell_le e (of_int 8) = true) ∧
    ((∀ j e, evol !! j = Some e → ∃ k, e = of_int k) →
     ∀ b, b ∈ ib ↔
          ∃ j k, ids !! j = Some b ∧ evol !! j = Some (of_int k) ∧
                 (3 ≤ k ≤ 8)%Z) ∧
    ((∀ j b e, ids !! j = Some b → evol !! j = Some e →
               ¬ (cell_le (of_int 3) e = true ∧ cell_le e (of_int 8) = true)) →
     ib = [] ∧ warnings_log s' = warnings_log s) ∧
    (∀ j b e, ids !! j = Some b → evol !! j = Some e →
              cell_le (of_int 3) e = true → cell_le e (of_int 8) = true →
              b ∈ ib ∧
              warnings_log s' = (warnings_log s ++ [UserWarning ib])%list).
Proof.
  intros Hrun Hdf Hevolve.
  destruct (delay_companions_Ok_at _ _ _ _ _ _ _ _ _ _ Hrun Hdf)
    as (bpp' & aux' & updater & values & tphysf & -> & _ & Hevolve' & _ & Hib
        & _ & _ & _ & _ & ->).
  rewrite Hevolve in Hevolve'. injection Hevolve' as <- <-.
  apply interacting_Ok in Hib as (ids & evol & Hids & Hevol & ->).
  set (hits := compress (between 3 8 <$> evol) ids).
  assert (∀ b, b ∈ unique hits ↔
            ∃ j e, ids !! j = Some b ∧ evol !! j = Some e ∧
                   cell_le (of_int 3) e = true ∧ cell_le e (of_int 8) = true)
    as Hin.
  { intros b. rewrite elem_of_unique. unfold hits. rewrite elem_of_compress.
    split.
    - intros (j & (e & ? & [? ?]%between_spelled)%lookup_between_mask & ?).
      by exists j, e.
    - intros (j & e & ? & ? & ? & ?). exists j. split; [|done].
      apply lookup_between_mask. exists e. split; [done|].
      by apply between_spelled. }
  exists ids, evol. simpl.
  split_and!; [done|done|apply NoDup_unique|done| | |].
  - intros Hint b. rewrite Hin. split.
    + intros (j & e & Hj & He & Hlo & Hhi).
      destruct (Hint j e He) as [k ->]. exists j, k.
      split; [done|]. split; [done|].
      apply between_of_int. by apply between_spelled.
    + intros (j & k & Hj & He & Hk). exists j, (of_int k).
      split; [done|]. split; [done|].
      apply between_spelled, between_of_int. done.
  - intros Hnone.
    assert (unique hits = []) as ->.
    { destruct (unique hits) as [|b l]; [done|].
      destruct (proj1 (Hin b)) as (j & e & Hj & He & Hlo & Hhi); [left|].
      by destruct (Hnone j b e Hj He). }
    split; [done|]. unfold interaction_warning. simpl. apply app_nil_r.
  - intros j b e Hj He Hlo Hhi.
    assert (b ∈ unique hits) as Hb by (apply Hin; by exists j, e).
    split; [done|]. unfold interaction_warning.
    destruct (unique hits) as [|b' l]; [by apply elem_of_nil in Hb|].
    rewrite decide_True; [done|simpl; lia].
Qed.
End splice_claims.

(** ** When the call returns *)

Section returns.
Context {V : Type} `{Dtype V} {BSEDict Pool Aux : Type}.
Variable Evolve_evolve :
  DataFrame V → BSEDict → Pool → result (DataFrame V * Aux).
Implicit Types (s : state V) (df bpp : DataFrame V).

Lemma df_values_total df keys :
  (∀ c, c ∈ keys → is_Some (columns df !! c)) →
  ∃ values : list (list V), df_values df keys = Ok values.
Proof.
  intros Hkeys.
  assert (∃ cols : list (list V), df_select df keys = Ok cols) as [cols Hcols].
  { induction keys as [|k keys IH]; simpl; [by eexists|].
    destruct (Hkeys k) as [col Hcol]; [left|].
    destruct IH as [cols Hcols]; [intros c Hc; apply Hkeys; by right|].
    unfold df_getitem. rewrite Hcol, Hcols. by eexists. }
  exists (astype_common cols). unfold df_values. by rewrite Hcols.
Qed.

(** The call returns when the lengths match, the engine returns a
    well-shaped history carrying the columns that are read, and the
    history holds as many binaries as the input has rows. *)
Lemma delay_companions_returns
      initC delays pool bse s df tphysf bpp aux ids evol :
  heap s !! initC = Some df →
  length delays = nrows df →
  columns df !! "tphysf" = Some tphysf →
  length tphysf = nrows df →
  Evolve_evolve (partial_run_table df delays) bse pool = Ok (bpp, aux) →
  frame_wf bpp →
  columns bpp !! "bin_num" = Some ids →
  columns bpp !! "evol_type" = Some evol →
  (∀ c, c ∈ columns_to_update → is_Some (columns bpp !! c)) →
  length (selected (negb <$> duplicated_last ids)) = nrows df →
  ∃ new_initC ib s',
    delay_companions Evolve_evolve initC delays pool bse s
      = (Ok (new_initC, ib), s').
Proof.
  intros Hdf Hlen Htphysf Hlen' Hevolve Hwf Hids Hevol Hcols Hrows.
  set (mask := negb <$> duplicated_last ids) in *.
  destruct (df_values_total (df_mask bpp mask) columns_to_update)
    as [values Hvalues].
  { intros c Hc. rewrite lookup_df_mask.
    destruct (Hcols c Hc) as [hist ->]. by eexists. }
  eexists _, _, _. apply delay_companions_Ok.
  exists df, bpp, aux, (df_mask bpp mask), values, tphysf.
  split_and!; try done.
  - apply drop_duplicates_last_Ok. eauto.
  - apply interacting_Ok. eauto.
  - apply df_values_columns in Hvalues. apply Forall_lookup. intros i col Hcol.
    destruct (Forall2_lookup_r _ _ _ _ _ Hvalues Hcol)
      as (c & Hc & sel & Hupd & ->).
    rewrite lookup_df_mask in Hupd.
    destruct (columns bpp !! c) as [hist|] eqn:Hhist; [|done].
    injection Hupd as <-. rewrite <- Hrows. symmetry.
    eapply Forall2_length, selected_rows.
    unfold mask. rewrite length_fmap, length_duplicated_last.
    rewrite (Hwf "bin_num" ids Hids). symmetry. by apply (Hwf c).
Qed.
End returns.

(** ** The timescale estimator and the delay calculator *)

Section estimator.
Local Open Scope R_scope.
Implicit Types (M : list R) (m : R).

Lemma length_get_t_pre_ms M : length (get_t_pre_ms M) = length M.
Proof. unfold get_t_pre_ms, np_multiply, np_power. by rewrite !length_fmap. Qed.

Lemma lookup_get_t_pre_ms M i :
  get_t_pre_ms M !! i = t_pre_ms <$> M !! i.
Proof.
  unfold get_t_pre_ms, np_multiply, np_power.
  rewrite !list_lookup_fmap. by destruct (M !! i).
Qed.

Lemma Rpower_minus_five_halves m :
  0 < m → Rpower m (-2.5) = / (m * m * sqrt m).
Proof.
  intros Hm. replace (-2.5) with (- (INR 2 + / 2)) by (simpl; lra).
  rewrite Rpower_Ropp, Rpower_plus, Rpower_pow, Rpower_sqrt by done.
  f_equal. simpl. ring.
Qed.

Lemma t_pre_ms_pos m : 0 < t_pre_ms m.
Proof.
  unfold t_pre_ms, Rpower. apply Rmult_lt_0_compat; [lra|apply exp_pos].
Qed.

Lemma t_pre_ms_decreasing m1 m2 :
  0 < m1 → m1 < m2 → t_pre_ms m2 < t_pre_ms m1.
Proof.
  intros Hpos Hlt. unfold t_pre_ms, Rpower.
  apply Rmult_lt_compat_l; [lra|]. apply exp_increasing.
  assert (ln m1 < ln m2) by (by apply ln_increasing). lra.
Qed.

Lemma t_pre_ms_le_iff m1 m2 :
  0 < m1 → 0 < m2 → (t_pre_ms m1 <= t_pre_ms m2 ↔ m2 <= m1).
Proof.
  intros H1 H2. split.
  - intros Hle. destruct (Rle_lt_dec m2 m1) as [|Hlt]; [done|].
    pose proof (t_pre_ms_decreasing m1 m2 H1 Hlt). lra.
  - intros [Hlt| ->]; [|lra].
    pose proof (t_pre_ms_decreasing m2 m1 H2 Hlt). lra.
Qed.

Lemma t_pre_ms_1 : t_pre_ms 1 = 62.8.
Proof. unfold t_pre_ms, Rpower. rewrite ln_1, Rmult_0_r, exp_0. lra. Qed.

Lemma sqrt2_bounds : 1.414 < sqrt 2 < 1.415.
Proof.
  assert (0 <= sqrt 2) as Hpos by apply sqrt_pos.
  assert (sqrt 2 * sqrt 2 = 2) as Hsq by (apply sqrt_sqrt; lra).
  split; nra.
Qed.

Lemma t_pre_ms_2 : 11.09 < t_pre_ms 2 < 11.11.
Proof.
  unfold t_pre_ms. rewrite Rpower_minus_five_halves by lra.
  pose proof sqrt2_bounds as [Hlo Hhi].
  assert (/ (2 * 2 * sqrt 2) * (2 * 2 * sqrt 2) = 1) as Hinv
    by (apply Rinv_l; lra).
  assert (0 < / (2 * 2 * sqrt 2)) as Hpos by (apply Rinv_0_lt_compat; lra).
  revert Hinv Hpos. generalize (/ (2 * 2 * sqrt 2)). intros q Hinv Hpos.
  split; nra.
Qed.

(** C7: on strictly positive masses the estimator returns, entry by
    entry and with the length and order of its input, [62.8 * m^-2.5],
    which is [62.8 / (m^2 * sqrt m)]; the mass [1] gives [62.8].  The
    function is a pure function of its argument: the body of the source
    builds new arrays and writes to nothing. *)
Theorem get_t_pre_ms_elementwise M :
  Forall (λ m, 0 < m) M →
  length (get_t_pre_ms M) = length M ∧
  (∀ i m, M !! i = Some m →
     get_t_pre_ms M !! i = Some (62.8 * Rpower m (-2.5)) ∧
     62.8 * Rpower m (-2.5) = 62.8 / (m * m * sqrt m)) ∧
  get_t_pre_ms [1] = [62.8].
Proof.
  intros Hpos. split; [apply length_get_t_pre_ms|]. split.
  - intros i m Hm. rewrite lookup_get_t_pre_ms, Hm. split; [done|].
    rewrite Rpower_minus_five_halves; [done|].
    by apply (proj1 (Forall_lookup _ _) Hpos i m).
  - unfold get_t_pre_ms, np_multiply, np_power. simpl. f_equal.
    apply t_pre_ms_1.
Qed.

End estimator.

Section delay_calculator.
Local Open Scope R_scope.
Implicit Types (s : state R) (df : DataFrame R).

Lemma get_delays_run initC s df mass_1 mass_2 :
  heap s !! initC = Some df →
  columns df !! "mass_1" = Some mass_1 →
  columns df !! "mass_2" = Some mass_2 →
  length mass_1 = length mass_2 →
  get_delays initC s
    = (Ok (zip_with Rminus (get_t_pre_ms mass_2) (get_t_pre_ms mass_1)), s).
Proof.
  intros Hdf H1 H2 Hlen. unfold get_delays.
  assert (∀ c col, columns df !! c = Some col →
                   getitem initC c s = (Ok col, s)) as Hget.
  { intros c col Hc. apply getitem_Ok. eauto. }
  rewrite bind_run, (Hget _ _ H2), bind_run, (Hget _ _ H1).
  unfold lift, np_subtract.
  by rewrite decide_True by (rewrite !length_get_t_pre_ms; done).
Qed.

Lemma lookup_delays mass_1 mass_2 i m1 m2 :
  mass_1 !! i = Some m1 → mass_2 !! i = Some m2 →
  zip_with Rminus (get_t_pre_ms mass_2) (get_t_pre_ms mass_1) !! i
    = Some (t_pre_ms m2 - t_pre_ms m1).
Proof.
  intros H1 H2. rewrite lookup_zip_with, !lookup_get_t_pre_ms, H1, H2. done.
Qed.


End delay_calculator.

(** ** The claims on the example population *)

Lemma ex_run_returns :
  delay_companions ex_evolve 0 [7; 9]%Z () () ex_state = (Ok (1, [1%Z]), ex_run.2).
Proof. by vm_compute. Qed.

Lemma tphysf_restored_witness :
  ∃ out tphysf,
    heap (ex_run.2) !! 1 = Some out ∧
    columns ex_initC !! "tphysf" = Some tphysf ∧
    columns out !! "tphysf" = Some tphysf.
Proof.
  apply (tphysf_restored ex_evolve 0 [7; 9]%Z () () ex_state 1 [1%Z]
           (ex_run.2) ex_initC); by vm_compute.
Defined.

(** The splice goes by position: when the history lists the binaries in
    another order than the input, the first row, binary [0], receives the
    final state of binary [1]. *)
Example splice_is_positional :
  ∃ new_initC s' out,
    delay_companions ex_evolve_swapped 0 [7; 9]%Z () () ex_state
      = (Ok (new_initC, []), s') ∧
    heap s' !! new_initC = Some out ∧
    columns out !! "bin_num" = Some [0; 1]%Z ∧
    columns ex_bpp_swapped !! "bin_num" = Some [1; 0]%Z ∧
    columns ex_bpp_swapped !! "porb" = Some [100; 200]%Z ∧
    columns out !! "porb" = Some [100; 200]%Z.
Proof. eexists _, _, _. split_and!; by vm_compute. Qed.


(** C2 as stated fails: the clone's first row belongs to binary [0],
    whose final-state row records the stellar type [2^53 + 1] as an
    int64; the other state columns being float64, [.values] casts, and
    the returned table holds the float64 [2^53]. *)
Lemma state_columns_cast_counterexample :
  ∃ out,
    ex_run_mixed.1 = Ok (1, []) ∧
    heap (ex_run_mixed.2) !! 1 = Some out ∧
    cell out "bin_num" 0 = Some (Int64 0) ∧
    cell ex_bpp_mixed "bin_num" 0 = Some (Int64 0) ∧
    final_state_row [Int64 0; Int64 1; Int64 1] 0 ∧
    cell ex_bpp_mixed "kstar_1" 0 = Some (Int64 9007199254740993) ∧
    cell out "kstar_1" 0 = Some (Float64 (Z2float 9007199254740992)) ∧
    cell out "kstar_1" 0 ≠ cell ex_bpp_mixed "kstar_1" 0.
Proof.
  eexists. split_and!; try by vm_compute.
  apply keep_last_final_state_row. by vm_compute.
Qed.

Lemma interacting_binaries_detected_witness :
  ∃ ids evol,
    columns ex_bpp_codes !! "bin_num" = Some ids ∧
    columns ex_bpp_codes !! "evol_type" = Some evol ∧
    NoDup [1%Z] ∧
    (∀ b, b ∈ [1%Z] ↔
          ∃ j e, ids !! j = Some b ∧ evol !! j = Some e ∧
                 (3 <=? e)%Z = true ∧ (e <=? 8)%Z = true) ∧
    ((∀ j e, evol !! j = Some e → ∃ k, e = k) →
     ∀ b, b ∈ [1%Z] ↔
          ∃ j k, ids !! j = Some b ∧ evol !! j = Some k ∧ (3 ≤ k ≤ 8)%Z) ∧
    ((∀ j b e, ids !! j = Some b → evol !! j = Some e →
               ¬ ((3 <=? e)%Z = true ∧ (e <=? 8)%Z = true)) →
     [1%Z] = [] ∧ warnings_log (ex_run_codes.2) = warnings_log ex_state) ∧
    (∀ j b e, ids !! j = Some b → evol !! j = Some e →
              (3 <=? e)%Z = true → (e <=? 8)%Z = true →
              b ∈ [1%Z] ∧
              warnings_log (ex_run_codes.2)
                = (warnings_log ex_state ++ [UserWarning [1%Z]])%list).
Proof.
  apply (interacting_binaries_detected (H := Z_dtype) ex_evolve_codes 0
           [7; 9]%Z () () ex_state 1 [1%Z] (ex_run_codes.2) ex_initC
           ex_bpp_codes ()); by vm_compute.
Defined.

Lemma rows_and_identifiers_kept_witness :
  ∃ out,
    heap (ex_run.2) !! 1 = Some out ∧
    nrows out = nrows ex_initC ∧
    columns out !! "bin_num" = columns ex_initC !! "bin_num" ∧
    (∀ ids, columns ex_initC !! "bin_num" = Some ids → NoDup ids →
            ∃ ids', columns out !! "bin_num" = Some ids' ∧
                    (∀ i, ids' !! i = ids !! i) ∧ NoDup ids') ∧
    (frame_wf ex_initC → frame_wf out).
Proof.
  apply (rows_and_identifiers_kept ex_evolve 0 [7; 9]%Z () () ex_state 1 [1%Z]
           (ex_run.2) ex_initC); by vm_compute.
Defined.

Lemma other_columns_kept_witness :
  ∃ out,
    heap (ex_run.2) !! 1 = Some out ∧
    (∀ c, c ∉ columns_to_update → c ≠ "tphysf" →
          columns out !! c = columns ex_initC !! c) ∧
    Forall (λ c, columns out !! c = columns ex_initC !! c) secondary_columns.
Proof.
  apply (other_columns_kept ex_evolve 0 [7; 9]%Z () () ex_state 1 [1%Z]
           (ex_run.2) ex_initC); by vm_compute.
Defined.

Lemma input_never_mutated_witness :
  (∀ l, l ∈ dom (heap ex_state) → heap (ex_run.2) !! l = heap ex_state !! l) ∧
  heap (ex_run.2) !! 0 = heap ex_state !! 0 ∧
  (∀ new_initC ib, Ok (1, [1%Z]) = Ok (new_initC, ib) →
     (new_initC ∉ dom (heap ex_state)) ∧ new_initC ≠ 0 ∧
     is_Some (heap (ex_run.2) !! new_initC)).
Proof.
  apply (input_never_mutated ex_evolve 0 [7; 9]%Z () () ex_state
           (Ok (1, [1%Z])) (ex_run.2)).
  by vm_compute.
Defined.

Section real_examples.
Local Open Scope R_scope.

Lemma ex_masses_wf : frame_wf ex_masses.
Proof.
  unfold frame_wf, ex_masses. simpl.
  repeat (apply map_Forall_insert_2; [done|]). apply map_Forall_empty.
Qed.

Lemma get_t_pre_ms_elementwise_witness :
  length (get_t_pre_ms [1; 2]) = length [1; 2] ∧
  (∀ i m, [1; 2] !! i = Some m →
     get_t_pre_ms [1; 2] !! i = Some (62.8 * Rpower m (-2.5)) ∧
     62.8 * Rpower m (-2.5) = 62.8 / (m * m * sqrt m)) ∧
  get_t_pre_ms [1] = [62.8].
Proof.
  apply (get_t_pre_ms_elementwise [1; 2]).
  repeat constructor; lra.
Defined.




End real_examples.

(** * Further properties of the module *)

(** ** Evaluating the statements forwards *)

Section forward.
Context {V : Type} `{Dtype V} {BSEDict Pool Aux : Type}.
Variable Evolve_evolve :
  DataFrame V → BSEDict → Pool → result (DataFrame V * Aux).
Implicit Types (s : state V) (df bpp : DataFrame V) (l : loc).

Lemma copy_run l s df :
  heap s !! l = Some df →
  copy l s = (Ok (fresh_loc (heap s)),
              mkState (<[fresh_loc (heap s) := df]> (heap s)) (warnings_log s)).
Proof. intros. apply copy_Ok. eauto. Qed.

Lemma deref_run l s df : heap s !! l = Some df → deref l s = (Ok df, s).
Proof. intros. by apply deref_Ok. Qed.

Lemma setitem_run l c (values : list V) s df :
  heap s !! l = Some df → length values = nrows df →
  setitem l c values s
    = (Ok (), mkState (<[l := mkDataFrame (nrows df) (<[c := values]> (columns df))]>
                         (heap s))
                      (warnings_log s)).
Proof. intros. apply setitem_Ok. eauto. Qed.

Lemma setitem_refused l c (values : list V) s df :
  heap s !! l = Some df → length values ≠ nrows df →
  setitem l c values s
    = (Raise (ValueError "Length of values does not match length of index"), s).
Proof.
  intros Hl Hlen. unfold setitem.
  rewrite bind_run, (deref_run _ _ _ Hl), bind_run.
  unfold lift, df_setitem. by rewrite decide_False.
Qed.

Lemma getitem_run l c s df col :
  heap s !! l = Some df → columns df !! c = Some col →
  getitem l c s = (Ok col, s).
Proof. intros. apply getitem_Ok. eauto. Qed.

Lemma getitem_missing l c s df :
  heap s !! l = Some df → columns df !! c = None →
  getitem l c s = (Raise (KeyError c), s).
Proof.
  intros Hl Hc. unfold getitem.
  rewrite bind_run, (deref_run _ _ _ Hl). unfold lift, df_getitem.
  by rewrite Hc.
Qed.

(** [delay_companions] up to the engine call. *)
Lemma delay_companions_to_engine initC delays pool bse s df :
  heap s !! initC = Some df → length delays = nrows df →
  delay_companions Evolve_evolve initC delays pool bse s =
  let new_initC := fresh_loc (heap s) in
  let s1 := mkState (<[new_initC := partial_run_table df delays]> (heap s))
                    (warnings_log s) in
  match Evolve_evolve (partial_run_table df delays) bse pool with
  | Ok (bpp, _) => after_engine initC new_initC bpp s1
  | Raise e => (Raise e, s1)
  end.
Proof.
  intros Hdf Hlen. unfold delay_companions.
  rewrite bind_run, (copy_run _ _ _ Hdf).
  rewrite bind_run, (setitem_run _ _ _ _ df) by (simpl; by rewrite ?lookup_insert_eq).
  simpl. rewrite insert_insert_eq.
  rewrite bind_run, (deref_run _ _ (partial_run_table df delays))
    by (simpl; by rewrite lookup_insert_eq).
  rewrite bind_run. unfold lift at 1.
  destruct (Evolve_evolve _ bse pool) as [[bpp aux]|e]; done.
Qed.

(** The detection pass logs its warning, if any, and goes on. *)
Lemma after_engine_detect initC new_initC bpp s ids evol :
  columns bpp !! "bin_num" = Some ids →
  columns bpp !! "evol_type" = Some evol →
  after_engine initC new_initC bpp s =
  let ib := unique (compress (between 3 8 <$> evol) ids) in
  (values ← lift (df_values (df_mask bpp (negb <$> duplicated_last ids))
                            columns_to_update);
   _ ← setitem_array new_initC columns_to_update values;
   tphysf ← getitem initC "tphysf";
   _ ← setitem new_initC "tphysf" tphysf;
   mret (new_initC, ib))
    (mkState (heap s) (warnings_log s ++ interaction_warning ib)).
Proof.
  intros Hids Hevol. unfold after_engine.
  assert (drop_duplicates_last bpp "bin_num"
          = Ok (df_mask bpp (negb <$> duplicated_last ids))) as Hupd
    by (apply drop_duplicates_last_Ok; eauto).
  assert (interacting bpp = Ok (unique (compress (between 3 8 <$> evol) ids)))
    as Hib by (apply interacting_Ok; eauto).
  rewrite bind_run, Hupd. unfold lift at 1.
  rewrite bind_run, Hib. unfold lift at 1.
  rewrite bind_run. simpl. unfold interaction_warning.
  destruct s as [h w]. case_decide; simpl; [done|].
  unfold mret, M_ret. by rewrite app_nil_r.
Qed.
End forward.

(** ** Keeping the last row of every identifier *)

Section keep_last_facts.
Context {A : Type} `{EqDecision A}.
Implicit Types (ids : list A).

Lemma elem_of_keep_last ids b :
  b ∈ compress (negb <$> duplicated_last ids) ids ↔ b ∈ ids.
Proof.
  induction ids as [|x ids IH]; simpl; [done|].
  case_bool_decide as Hx; simpl.
  - rewrite IH, elem_of_cons. split; [by right|]. by intros [->|?].
  - by rewrite !elem_of_cons, IH.
Qed.

Lemma NoDup_keep_last ids :
  NoDup (compress (negb <$> duplicated_last ids) ids).
Proof.
  induction ids as [|x ids IH]; simpl; [constructor|].
  case_bool_decide as Hx; simpl; [done|].
  constructor; [|done]. by rewrite elem_of_keep_last.
Qed.

(** Keeping last occurrences and keeping first occurrences leave the
    same number of entries: the number of distinct identifiers. *)
Lemma length_keep_last ids :
  length (compress (negb <$> duplicated_last ids) ids) = length (unique ids).
Proof.
  apply Permutation_length, NoDup_Permutation;
    [apply NoDup_keep_last|apply NoDup_unique|].
  intros b. by rewrite elem_of_keep_last, elem_of_unique.
Qed.

Lemma length_keep_last_column ids {B} (hist : list B) :
  length hist = length ids →
  length (compress (negb <$> duplicated_last ids) hist) = length (unique ids).
Proof.
  intros Hlen. rewrite <- length_keep_last.
  set (mask := negb <$> duplicated_last ids).
  assert (length mask = length ids) as Hmask
    by (unfold mask; by rewrite length_fmap, length_duplicated_last).
  transitivity (length (selected mask)).
  - symmetry. eapply Forall2_length, selected_rows. congruence.
  - eapply Forall2_length, selected_rows. done.
Qed.
End keep_last_facts.

(** ** How a call of [delay_companions] fails *)

Lemma columns_to_update_cons :
  columns_to_update = "porb" :: tail columns_to_update.
Proof. by vm_compute. Qed.

Section failure_paths.
Context {V : Type} `{Dtype V} {BSEDict Pool Aux : Type}.
Variable Evolve_evolve :
  DataFrame V → BSEDict → Pool → result (DataFrame V * Aux).
Implicit Types (s : state V) (df bpp : DataFrame V) (l : loc).

Lemma initC_survives initC s df (x : DataFrame V) :
  heap s !! initC = Some df →
  <[fresh_loc (heap s) := x]> (heap s) !! initC = Some df.
Proof.
  intros Hdf. rewrite lookup_insert_ne; [done|].
  intros Heq. rewrite <- Heq, fresh_loc_fresh in Hdf. done.
Qed.

(** A delay vector of the wrong length is refused before the engine is
    consulted: the outcome is the same [ValueError] for every engine, no
    warning is raised and the input table is as before. *)
Theorem length_mismatch_refused initC delays pool bse s df :
  heap s !! initC = Some df → 0 < nrows df → length delays ≠ nrows df →
  ∃ msg s',
    delay_companions Evolve_evolve initC delays pool bse s
      = (Raise (ValueError msg), s') ∧
    warnings_log s' = warnings_log s ∧
    heap s' !! initC = Some df.
Proof.
  intros Hdf _ Hlen. unfold delay_companions.
  rewrite bind_run, (copy_run _ _ _ Hdf).
  rewrite bind_run, (setitem_refused _ _ _ _ df)
    by (simpl; by rewrite ?lookup_insert_eq).
  eexists _, _. split; [done|]. split; [done|]. simpl.
  by apply initC_survives.
Qed.

(** A failure of the engine is the failure of the call: the exception
    passes through unchanged, no warning is raised and the input table
    is as before. *)
Theorem engine_failure_propagates initC delays pool bse s df e :
  heap s !! initC = Some df → length delays = nrows df →
  Evolve_evolve (partial_run_table df delays) bse pool = Raise e →
  ∃ s',
    delay_companions Evolve_evolve initC delays pool bse s = (Raise e, s') ∧
    warnings_log s' = warnings_log s ∧
    heap s' !! initC = Some df.
Proof.
  intros Hdf Hlen Hevolve.
  rewrite (delay_companions_to_engine _ _ _ _ _ _ df Hdf Hlen). simpl.
  rewrite Hevolve. eexists. split; [done|]. split; [done|]. simpl.
  by apply initC_survives.
Qed.

(** A history without the column [bin_num] stops the call at
    [drop_duplicates], before the detection pass: the outcome is
    [KeyError "bin_num"] and no warning is raised, whatever event codes
    the history holds. *)
Theorem history_without_identifiers initC delays pool bse s df bpp aux :
  heap s !! initC = Some df → length delays = nrows df →
  Evolve_evolve (partial_run_table df delays) bse pool = Ok (bpp, aux) →
  columns bpp !! "bin_num" = None →
  ∃ s',
    delay_companions Evolve_evolve initC delays pool bse s
      = (Raise (KeyError "bin_num"), s') ∧
    warnings_log s' = warnings_log s.
Proof.
  intros Hdf Hlen Hevolve Hids.
  rewrite (delay_companions_to_engine _ _ _ _ _ _ df Hdf Hlen). simpl.
  rewrite Hevolve. unfold after_engine.
  rewrite bind_run. unfold lift at 1, drop_duplicates_last, df_getitem.
  rewrite Hids. by eexists.
Qed.

(** A history with [bin_num] but without [evol_type] stops the call in
    the detection pass: the outcome is [KeyError "evol_type"] and no
    warning is raised. *)
Theorem history_without_event_codes initC delays pool bse s df bpp aux ids :
  heap s !! initC = Some df → length delays = nrows df →
  Evolve_evolve (partial_run_table df delays) bse pool = Ok (bpp, aux) →
  columns bpp !! "bin_num" = Some ids →
  columns bpp !! "evol_type" = None →
  ∃ s',
    delay_companions Evolve_evolve initC delays pool bse s
      = (Raise (KeyError "evol_type"), s') ∧
    warnings_log s' = warnings_log s.
Proof.
  intros Hdf Hlen Hevolve Hids Hevol.
  rewrite (delay_companions_to_engine _ _ _ _ _ _ df Hdf Hlen). simpl.
  rewrite Hevolve. unfold after_engine.
  rewrite bind_run. unfold lift at 1, drop_duplicates_last, df_getitem at 1.
  rewrite Hids.
  rewrite bind_run. unfold lift at 1, interacting, df_getitem at 1.
  rewrite Hevol. by eexists.
Qed.

Lemma df_values_some_missing df keys :
  (∃ c, c ∈ keys ∧ columns df !! c = None) →
  ∃ c, c ∈ keys ∧ columns df !! c = None ∧
       df_values df keys = (Raise (KeyError c) : result (list (list V))).
Proof.
  intros Hmissing.
  assert (∃ c, c ∈ keys ∧ columns df !! c = None ∧
               df_select df keys = (Raise (KeyError c) : result (list (list V))))
    as (c & Hc & Hnone & Hsel).
  { induction keys as [|k keys IH]; destruct Hmissing as (c & Hc & Hnone).
    - by apply elem_of_nil in Hc.
    - destruct (columns df !! k) as [col|] eqn:Hk.
      + destruct IH as (c' & Hc' & Hnone' & Hrun).
        { exists c. split; [|done].
          apply elem_of_cons in Hc as [->|?]; [congruence|done]. }
        exists c'. split; [by right|]. split; [done|].
        simpl. unfold df_getitem. by rewrite Hk, Hrun.
      + exists k. split; [left|]. split; [done|].
        simpl. unfold df_getitem. by rewrite Hk. }
  exists c. split; [done|]. split; [done|].
  unfold df_values. by rewrite Hsel.
Qed.

(** A history that lacks some of the eighteen state columns stops the
    call after the detection pass: the outcome is a [KeyError] that names
    a missing state column, and the warning about interacting binaries
    has already been raised. *)
Theorem missing_state_column
        initC delays pool bse s df bpp aux ids evol c :
  heap s !! initC = Some df → length delays = nrows df →
  Evolve_evolve (partial_run_table df delays) bse pool = Ok (bpp, aux) →
  columns bpp !! "bin_num" = Some ids →
  columns bpp !! "evol_type" = Some evol →
  c ∈ columns_to_update →
  columns bpp !! c = None →
  ∃ c' s',
    delay_companions Evolve_evolve initC delays pool bse s
      = (Raise (KeyError c'), s') ∧
    c' ∈ columns_to_update ∧ columns bpp !! c' = None ∧
    warnings_log s'
      = (warnings_log s
         ++ interaction_warning (unique (compress (between 3 8 <$> evol) ids)))%list.
Proof.
  intros Hdf Hlen Hevolve Hids Hevol Hc Hmissing.
  rewrite (delay_companions_to_engine _ _ _ _ _ _ df Hdf Hlen). simpl.
  rewrite Hevolve, (after_engine_detect _ _ _ _ ids evol Hids Hevol). simpl.
  destruct (df_values_some_missing
              (df_mask bpp (negb <$> duplicated_last ids)) columns_to_update)
    as (c' & Hc' & Hmissing' & Hrun).
  { exists c. split; [done|]. by rewrite lookup_df_mask, Hmissing. }
  rewrite bind_run. unfold lift at 1. rewrite Hrun.
  exists c'. eexists. split_and!; [done|done| |done].
  rewrite lookup_df_mask in Hmissing'.
  by destruct (columns bpp !! c').
Qed.

(** A history whose number of distinct identifiers is not the number of
    rows of the table stops the call at the splice, with a [ValueError];
    the warning about interacting binaries has already been raised and
    the input table is as before. *)
Theorem row_count_mismatch initC delays pool bse s df bpp aux ids evol :
  heap s !! initC = Some df → length delays = nrows df → 0 < nrows df →
  Evolve_evolve (partial_run_table df delays) bse pool = Ok (bpp, aux) →
  frame_wf bpp →
  columns bpp !! "bin_num" = Some ids →
  columns bpp !! "evol_type" = Some evol →
  (∀ c, c ∈ columns_to_update → is_Some (columns bpp !! c)) →
  length (unique ids) ≠ nrows df →
  ∃ msg s',
    delay_companions Evolve_evolve initC delays pool bse s
      = (Raise (ValueError msg), s') ∧
    warnings_log s'
      = (warnings_log s
         ++ interaction_warning (unique (compress (between 3 8 <$> evol) ids)))%list ∧
    heap s' !! initC = Some df.
Proof.
  intros Hdf Hlen _ Hevolve Hwf Hids Hevol Hcols Hcount.
  rewrite (delay_companions_to_engine _ _ _ _ _ _ df Hdf Hlen). simpl.
  rewrite Hevolve, (after_engine_detect _ _ _ _ ids evol Hids Hevol). simpl.
  set (mask := negb <$> duplicated_last ids).
  destruct (df_values_total (df_mask bpp mask) columns_to_update)
    as [values Hvalues].
  { intros c Hc. rewrite lookup_df_mask.
    destruct (Hcols c Hc) as [hist ->]. by eexists. }
  rewrite bind_run. unfold lift at 1. rewrite Hvalues.
  pose proof Hvalues as Hshape. apply df_values_length in Hshape.
  rewrite bind_run. unfold setitem_array. rewrite decide_True by done.
  rewrite columns_to_update_cons in Hvalues |- *.
  apply df_values_columns, Forall2_cons_inv_l in Hvalues
    as (col & rest & (sel & Hcol & Hlencol) & _ & ->).
  rewrite lookup_df_mask in Hcol.
  destruct (columns bpp !! "porb") as [hist|] eqn:Hhist; [|done].
  injection Hcol as <-.
  cbn [setitem_columns]. rewrite bind_run.
  rewrite (setitem_refused _ _ _ _ (partial_run_table df delays)).
  - eexists _, _. split; [done|]. split; [done|]. simpl.
    by apply initC_survives.
  - simpl. by rewrite lookup_insert_eq.
  - simpl. rewrite Hlencol. unfold mask.
    rewrite length_keep_last_column; [done|].
    rewrite (Hwf "bin_num" ids Hids). by apply (Hwf "porb").
Qed.

(** A table without the column [tphysf] is accepted by the first
    assignment, which creates the column on the clone, and refused only
    at the end, when the original values are read back: the outcome is
    [KeyError "tphysf"], after the engine has run and the warning has
    been raised. *)
Theorem missing_tphysf initC delays pool bse s df bpp aux ids evol :
  heap s !! initC = Some df → length delays = nrows df →
  columns df !! "tphysf" = None →
  Evolve_evolve (partial_run_table df delays) bse pool = Ok (bpp, aux) →
  frame_wf bpp →
  columns bpp !! "bin_num" = Some ids →
  columns bpp !! "evol_type" = Some evol →
  (∀ c, c ∈ columns_to_update → is_Some (columns bpp !! c)) →
  length (unique ids) = nrows df →
  ∃ s',
    delay_companions Evolve_evolve initC delays pool bse s
      = (Raise (KeyError "tphysf"), s') ∧
    warnings_log s'
      = (warnings_log s
         ++ interaction_warning (unique (compress (between 3 8 <$> evol) ids)))%list.
Proof.
  intros Hdf Hlen Htphysf Hevolve Hwf Hids Hevol Hcols Hcount.
  rewrite (delay_companions_to_engine _ _ _ _ _ _ df Hdf Hlen). simpl.
  rewrite Hevolve, (after_engine_detect _ _ _ _ ids evol Hids Hevol). simpl.
  set (mask := negb <$> duplicated_last ids).
  destruct (df_values_total (df_mask bpp mask) columns_to_update)
    as [values Hvalues].
  { intros c Hc. rewrite lookup_df_mask.
    destruct (Hcols c Hc) as [hist ->]. by eexists. }
  rewrite bind_run. unfold lift at 1. rewrite Hvalues.
  pose proof Hvalues as Hshape. apply df_values_length in Hshape.
  assert (Forall (λ col, length col = nrows df) values) as Hall.
  { apply df_values_columns in Hvalues. apply Forall_lookup. intros i col Hcol.
    destruct (Forall2_lookup_r _ _ _ _ _ Hvalues Hcol)
      as (c & Hc & sel & Hupd & ->).
    rewrite lookup_df_mask in Hupd.
    destruct (columns bpp !! c) as [hist|] eqn:Hhist; [|done].
    injection Hupd as <-. rewrite <- Hcount. unfold mask.
    apply length_keep_last_column.
    rewrite (Hwf "bin_num" ids Hids). by apply (Hwf c). }
  rewrite bind_run. unfold setitem_array. rewrite decide_True by done.
  match goal with
  | |- context [setitem_columns ?l ?k ?v ?st] =>
      destruct (setitem_columns l k v st) as [r s4] eqn:Hset
  end.
  assert (r = Ok () ∧ heap s4 !! initC = Some df
          ∧ warnings_log s4
            = (warnings_log s ++ interaction_warning
                 (unique (compress (between 3 8 <$> evol) ids)))%list)
    as (-> & Hdf4 & Hlog).
  { match type of Hset with
    | setitem_columns ?l ?k ?v ?st = _ =>
        assert (heap st !! l = Some (partial_run_table df delays)) as Hclone
          by (simpl; by rewrite lookup_insert_eq);
        pose proof (proj2 (setitem_columns_Ok l k v st _ () _
                             (eq_sym Hshape) Hclone) (conj Hall eq_refl)) as Hok
    end.
    rewrite Hok in Hset. injection Hset as <- <-. simpl.
    split; [done|]. split; [|done].
    rewrite insert_insert_eq. by apply initC_survives. }
  rewrite bind_run, (getitem_missing _ _ _ df Hdf4 Htphysf).
  by eexists.
Qed.
End failure_paths.

(** ** When exactly the call returns, and what it then returns *)

Lemma length_selected_keep_last {A} `{EqDecision A} (ids : list A) :
  length (selected (negb <$> duplicated_last ids)) = length (unique ids).
Proof.
  rewrite <- length_keep_last. eapply Forall2_length, selected_rows.
  by rewrite length_fmap, length_duplicated_last.
Qed.

Lemma lookup_assign_columns_ext {V} keys (values : list (list V)) cols1 cols2 c :
  cols1 !! c = cols2 !! c →
  assign_columns keys values cols1 !! c = assign_columns keys values cols2 !! c.
Proof.
  revert values cols1 cols2.
  induction keys as [|k keys IH]; intros [|v values] cols1 cols2 Hc; simpl;
    try done.
  apply IH. destruct (decide (k = c)) as [->|].
  - by rewrite !lookup_insert_eq.
  - by rewrite !lookup_insert_ne.
Qed.

Lemma spliced_table_delays {V} (df : DataFrame V) delays1 delays2 tphysf values :
  spliced_table df delays1 tphysf values = spliced_table df delays2 tphysf values.
Proof.
  unfold spliced_table. f_equal. apply map_eq. intros c.
  destruct (decide (c = "tphysf")) as [->|Hc].
  - by rewrite !lookup_insert_eq.
  - rewrite !lookup_insert_ne by done.
    apply lookup_assign_columns_ext. by rewrite !lookup_insert_ne.
Qed.

Section outcomes.
Context {V : Type} `{Dtype V} {BSEDict Pool Aux : Type}.
Variable Evolve_evolve :
  DataFrame V → BSEDict → Pool → result (DataFrame V * Aux).
Implicit Types (s : state V) (df bpp : DataFrame V) (l : loc).

(** What a returning call tells about the history. *)
Lemma delay_companions_Ok_history
      initC delays pool bse s new_initC ib s' df bpp aux :
  delay_companions Evolve_evolve initC delays pool bse s
    = (Ok (new_initC, ib), s') →
  heap s !! initC = Some df →
  Evolve_evolve (partial_run_table df delays) bse pool = Ok (bpp, aux) →
  frame_wf bpp →
  ∃ ids evol,
    columns bpp !! "bin_num" = Some ids ∧
    columns bpp !! "evol_type" = Some evol ∧
    ib = unique (compress (between 3 8 <$> evol) ids) ∧
    (∀ c, c ∈ columns_to_update → is_Some (columns bpp !! c)) ∧
    length (unique ids) = nrows df.
Proof.
  intros Hrun Hdf Hevolve Hwf.
  destruct (delay_companions_Ok_at _ _ _ _ _ _ _ _ _ _ Hrun Hdf)
    as (bpp' & aux' & updater & values & tphysf & -> & _ & Hevolve' & Hupd & Hib
        & Hvalues & Hall & _ & _ & ->).
  rewrite Hevolve in Hevolve'. injection Hevolve' as <- <-.
  apply drop_duplicates_last_Ok in Hupd as (ids & Hids & ->).
  apply interacting_Ok in Hib as (ids' & evol & Hids' & Hevol & ->).
  rewrite Hids in Hids'. injection Hids' as <-.
  apply df_values_columns in Hvalues.
  assert (∀ c, c ∈ columns_to_update →
            ∃ hist, columns bpp !! c = Some hist ∧
                    length (compress (negb <$> duplicated_last ids) hist) = nrows df)
    as Hcols.
  { intros c [i Hi]%list_elem_of_lookup_1.
    destruct (Forall2_lookup_l _ _ _ _ _ Hvalues Hi)
      as (col & Hcol & sel & Hupd & Hlencol).
    rewrite lookup_df_mask in Hupd.
    destruct (columns bpp !! c) as [hist|] eqn:Hhist; [|done].
    injection Hupd as <-. exists hist. split; [done|].
    rewrite <- Hlencol. eapply (proj1 (Forall_lookup _ _) Hall), Hcol. }
  exists ids, evol. split_and!; [done|done|done| |].
  - intros c Hc. destruct (Hcols c Hc) as (hist & -> & _). by eexists.
  - destruct (Hcols "porb") as (hist & Hhist & <-).
    { apply (bool_decide_unpack _). by vm_compute. }
    symmetry. apply length_keep_last_column.
    rewrite (Hwf "bin_num" ids Hids). by apply (Hwf "porb").
Qed.

(** On a well-shaped table and a well-shaped history the call returns
    exactly when the table has a [tphysf] column, the history has the
    columns [bin_num], [evol_type] and the eighteen state columns, and the
    number of distinct identifiers of the history is the number of rows
    of the table. *)
Theorem delay_companions_returns_iff initC delays pool bse s df bpp aux :
  heap s !! initC = Some df → frame_wf df → length delays = nrows df →
  Evolve_evolve (partial_run_table df delays) bse pool = Ok (bpp, aux) →
  frame_wf bpp →
  (∃ new_initC ib s',
     delay_companions Evolve_evolve initC delays pool bse s
       = (Ok (new_initC, ib), s')) ↔
  is_Some (columns df !! "tphysf") ∧
  is_Some (columns bpp !! "evol_type") ∧
  (∀ c, c ∈ columns_to_update → is_Some (columns bpp !! c)) ∧
  ∃ ids, columns bpp !! "bin_num" = Some ids ∧ length (unique ids) = nrows df.
Proof.
  intros Hdf Hwfdf Hlen Hevolve Hwf. split.
  - intros (new_initC & ib & s' & Hrun).
    destruct (delay_companions_Ok_history _ _ _ _ _ _ _ _ _ _ _ Hrun Hdf Hevolve Hwf)
      as (ids & evol & Hids & Hevol & _ & Hcols & Hcount).
    destruct (delay_companions_Ok_at _ _ _ _ _ _ _ _ _ _ Hrun Hdf)
      as (_ & _ & _ & _ & tphysf & _ & _ & _ & _ & _ & _ & _ & Htphysf & _).
    split_and!; eauto.
  - intros ([tphysf Htphysf] & [evol Hevol] & Hcols & ids & Hids & Hcount).
    apply (delay_companions_returns _ initC delays pool bse s df tphysf bpp aux
             ids evol); try done.
    + by apply (Hwfdf "tphysf").
    + by rewrite length_selected_keep_last.
Qed.

(** The final-state selection holds every identifier of the history
    exactly once, and is a well-shaped frame with one row per distinct
    identifier. *)
Theorem final_state_selection_identifiers bpp c updater ids :
  drop_duplicates_last bpp c = Ok updater →
  columns bpp !! c = Some ids →
  ∃ kept,
    columns updater !! c = Some kept ∧
    NoDup kept ∧ (∀ b, b ∈ kept ↔ b ∈ ids) ∧
    length kept = length (unique ids) ∧
    (frame_wf bpp → frame_wf updater ∧ nrows updater = length (unique ids)).
Proof.
  intros (ids' & Hids' & ->)%drop_duplicates_last_Ok Hids.
  rewrite Hids in Hids'. injection Hids' as <-.
  exists (compress (negb <$> duplicated_last ids) ids).
  split_and!.
  - by rewrite lookup_df_mask, Hids.
  - apply NoDup_keep_last.
  - intros b. apply elem_of_keep_last.
  - apply length_keep_last.
  - intros Hwf.
    assert (nrows (df_mask bpp (negb <$> duplicated_last ids))
            = length (unique ids)) as Hrows.
    { simpl. apply length_keep_last_column.
      rewrite length_seq. symmetry. by apply (Hwf c). }
    split; [|done]. intros c' col. rewrite lookup_df_mask.
    destruct (columns bpp !! c') as [hist|] eqn:Hhist; [|done].
    intros [= <-]. rewrite Hrows. apply length_keep_last_column.
    rewrite (Hwf c ids Hids). by apply (Hwf c').
Qed.

(** The binaries that are flagged are binaries of the history, and
    there are at most as many of them as the returned table has rows. *)
Theorem flagged_among_history
        initC delays pool bse s new_initC ib s' df bpp aux :
  delay_companions Evolve_evolve initC delays pool bse s
    = (Ok (new_initC, ib), s') →
  heap s !! initC = Some df →
  Evolve_evolve (partial_run_table df delays) bse pool = Ok (bpp, aux) →
  frame_wf bpp →
  ∃ out ids,
    heap s' !! new_initC = Some out ∧
    columns bpp !! "bin_num" = Some ids ∧
    (∀ b, b ∈ ib → b ∈ ids) ∧
    length ib ≤ nrows out.
Proof.
  intros Hrun Hdf Hevolve Hwf.
  destruct (delay_companions_Ok_history _ _ _ _ _ _ _ _ _ _ _ Hrun Hdf Hevolve Hwf)
    as (ids & evol & Hids & Hevol & -> & _ & Hcount).
  destruct (delay_companions_Ok_at _ _ _ _ _ _ _ _ _ _ Hrun Hdf)
    as (_ & _ & _ & values & tphysf & -> & _ & _ & _ & _ & _ & _ & _ & _ & ->).
  assert (∀ b, b ∈ unique (compress (between 3 8 <$> evol) ids) → b ∈ ids)
    as Hsub.
  { intros b. rewrite elem_of_unique, elem_of_compress.
    intros (j & _ & Hj). by eapply list_elem_of_lookup_2. }
  eexists _, ids. simpl. rewrite lookup_insert_eq.
  split_and!; [done|done|done|].
  transitivity (length (unique ids)); [|by rewrite Hcount].
  apply submseteq_length, NoDup_submseteq; [apply NoDup_unique|].
  intros b Hb. apply elem_of_unique. by apply Hsub.
Qed.

(** The delays reach the returned table through the engine only: two
    delay vectors on which the engine answers alike give the same
    returned table, the same flagged binaries and the same final state. *)
Theorem delays_only_reach_engine
        initC delays1 delays2 pool bse s df new_initC ib s' :
  heap s !! initC = Some df → length delays2 = nrows df →
  Evolve_evolve (partial_run_table df delays1) bse pool
    = Evolve_evolve (partial_run_table df delays2) bse pool →
  delay_companions Evolve_evolve initC delays1 pool bse s
    = (Ok (new_initC, ib), s') →
  delay_companions Evolve_evolve initC delays2 pool bse s
    = (Ok (new_initC, ib), s').
Proof.
  intros Hdf Hlen2 Hsame Hrun.
  destruct (delay_companions_Ok_at _ _ _ _ _ _ _ _ _ _ Hrun Hdf)
    as (bpp & aux & updater & values & tphysf & -> & _ & Hevolve & Hupd & Hib
        & Hvalues & Hall & Htphysf & Hlen' & ->).
  apply delay_companions_Ok.
  exists df, bpp, aux, updater, values, tphysf.
  split_and!; try done; [congruence|].
  by rewrite (spliced_table_delays df delays1 delays2).
Qed.

(** The input being untouched, a call that has returned can be repeated
    on the state it leaves: the second call returns another new table
    with the same content and the same flagged binaries, and leaves the
    first one as it is. *)
Theorem call_is_repeatable initC delays pool bse s new_initC ib s1 :
  delay_companions Evolve_evolve initC delays pool bse s
    = (Ok (new_initC, ib), s1) →
  ∃ new_initC' s2,
    delay_companions Evolve_evolve initC delays pool bse s1
      = (Ok (new_initC', ib), s2) ∧
    new_initC' ≠ new_initC ∧
    heap s2 !! new_initC' = heap s1 !! new_initC ∧
    heap s2 !! new_initC = heap s1 !! new_initC ∧
    is_Some (heap s1 !! new_initC).
Proof.
  intros (df & bpp & aux & updater & values & tphysf & Hdf & -> & Hlen & Hevolve
          & Hupd & Hib & Hvalues & Hall & Htphysf & Hlen' & ->)%delay_companions_Ok.
  set (l1 := fresh_loc (heap s)).
  set (out := spliced_table df delays tphysf values).
  set (s1 := mkState (<[l1 := out]> (heap s))
                     (warnings_log s ++ interaction_warning ib)).
  set (l2 := fresh_loc (heap s1)).
  assert (l2 ≠ l1) as Hne.
  { intros Heq. pose proof (fresh_loc_fresh (heap s1)) as Hfresh.
    fold l2 in Hfresh. rewrite Heq in Hfresh. simpl in Hfresh.
    by rewrite lookup_insert_eq in Hfresh. }
  exists l2, (mkState (<[l2 := out]> (heap s1))
                      (warnings_log s1 ++ interaction_warning ib)).
  split_and!.
  - apply delay_companions_Ok.
    exists df, bpp, aux, updater, values, tphysf.
    split_and!; try done. simpl. by apply initC_survives.
  - done.
  - simpl. by rewrite !lookup_insert_eq.
  - simpl. by rewrite lookup_insert_ne.
  - simpl. rewrite lookup_insert_eq. eauto.
Qed.
End outcomes.

(** ** The warnings of a call *)

Section warnings.
Context {V : Type} `{Dtype V} {BSEDict Pool Aux : Type}.
Variable Evolve_evolve :
  DataFrame V → BSEDict → Pool → result (DataFrame V * Aux).
Implicit Types (s : state V) (l : loc).

Lemma log_grows_same {A} (m : M V A) :
  (∀ s r s', m s = (r, s') → warnings_log s' = warnings_log s) →
  log_grows V 0 m.
Proof.
  intros Hm s r s' Hrun. exists []. rewrite app_nil_r. eauto.
Qed.

Lemma log_grows_ret {A} (a : A) : log_grows V 0 (mret a).
Proof. apply log_grows_same. by intros s r s' [= _ <-]. Qed.

Lemma log_grows_lift {A} (r : result A) : log_grows V 0 (lift r).
Proof. apply log_grows_same. by intros s r' s' [= _ <-]. Qed.

Lemma log_grows_raise {A} e : log_grows V 0 (raise e : M V A).
Proof. apply log_grows_same. by intros s r' s' [= _ <-]. Qed.

Lemma log_grows_deref l : log_grows V 0 (deref l).
Proof.
  apply log_grows_same. intros s r' s'. unfold deref.
  by destruct (heap s !! l); intros [= _ <-].
Qed.

Lemma log_grows_store l df : log_grows V 0 (store l df).
Proof. apply log_grows_same. by intros s r' s' [= _ <-]. Qed.

Lemma log_grows_alloc df : log_grows V 0 (alloc df).
Proof. apply log_grows_same. by intros s r' s' [= _ <-]. Qed.

Lemma log_grows_warn w : log_grows V 1 (warn w).
Proof. intros s r' s' [= _ <-]. by exists [w]. Qed.

Lemma log_grows_bind {A B} n1 n2 (m : M V A) (f : A → M V B) :
  log_grows V n1 m → (∀ a, log_grows V n2 (f a)) →
  log_grows V (n1 + n2) (m ≫= f).
Proof.
  intros Hm Hf s r s'. rewrite bind_run.
  destruct (m s) as [[a|e] s1] eqn:E; destruct (Hm _ _ _ E) as (w1 & Hw1 & Hn1).
  - intros Hfa. destruct (Hf a _ _ _ Hfa) as (w2 & Hw2 & Hn2).
    exists (w1 ++ w2)%list. rewrite Hw2, Hw1, length_app, app_assoc.
    split; [done|lia].
  - intros [= _ <-]. exists w1. split; [done|lia].
Qed.

Lemma log_grows_bind0 {A B} n (m : M V A) (f : A → M V B) :
  log_grows V 0 m → (∀ a, log_grows V n (f a)) → log_grows V n (m ≫= f).
Proof. apply (log_grows_bind 0 n). Qed.

Lemma log_grows_setitem l c values : log_grows V 0 (setitem l c values).
Proof.
  unfold setitem. apply log_grows_bind0; [apply log_grows_deref|intros df].
  apply log_grows_bind0; [apply log_grows_lift|intros df'].
  apply log_grows_store.
Qed.

Lemma log_grows_setitem_columns l keys values :
  log_grows V 0 (setitem_columns l keys values).
Proof.
  revert values.
  induction keys as [|c keys IH]; intros [|col values]; simpl;
    try apply log_grows_ret.
  apply log_grows_bind0; [apply log_grows_setitem|intros _; apply IH].
Qed.

Lemma log_grows_setitem_array l keys values :
  log_grows V 0 (setitem_array l keys values).
Proof.
  unfold setitem_array. case_decide; [|apply log_grows_raise].
  apply log_grows_setitem_columns.
Qed.

(** Whatever its outcome, a call keeps the warnings raised before it and
    adds at most one. *)
Theorem at_most_one_warning initC delays pool bse s r s' :
  delay_companions Evolve_evolve initC delays pool bse s = (r, s') →
  ∃ w, warnings_log s' = (warnings_log s ++ w)%list ∧ length w ≤ 1.
Proof.
  revert s r s'. change (log_grows V 1 (delay_companions Evolve_evolve initC
                                          delays pool bse)).
  unfold delay_companions.
  apply log_grows_bind0; [|intros new_initC].
  { unfold copy. apply log_grows_bind0; [apply log_grows_deref|intros df].
    apply log_grows_alloc. }
  apply log_grows_bind0; [apply log_grows_setitem|intros _].
  apply log_grows_bind0; [apply log_grows_deref|intros table].
  apply log_grows_bind0; [apply log_grows_lift|intros [bpp aux]].
  apply log_grows_bind0; [apply log_grows_lift|intros updater].
  apply log_grows_bind0; [apply log_grows_lift|intros interacting_binaries].
  apply (log_grows_bind 1 0).
  { case_decide; [apply log_grows_warn|].
    intros s r s' Hrun. destruct (log_grows_ret () _ _ _ Hrun) as (w & ? & ?).
    exists w. split; [done|lia]. }
  intros _.
  apply log_grows_bind0; [apply log_grows_lift|intros values].
  apply log_grows_bind0; [apply log_grows_setitem_array|intros _].
  apply log_grows_bind0; [|intros tphysf].
  { unfold getitem. apply log_grows_bind0; [apply log_grows_deref|intros df].
    apply log_grows_lift. }
  apply log_grows_bind0; [apply log_grows_setitem|intros _].
  apply log_grows_ret.
Qed.
End warnings.

(** ** More on the estimator and the delay calculator *)

Section calculator_facts.
Local Open Scope R_scope.
Implicit Types (s : state R) (df : DataFrame R).

(** A missing mass column stops [get_delays] with the [KeyError] of that
    column, [mass_2] being looked up first, and leaves the state as it
    was. *)
Theorem get_delays_missing_mass initC s df :
  heap s !! initC = Some df →
  (columns df !! "mass_2" = None →
   get_delays initC s = (Raise (KeyError "mass_2"), s)) ∧
  (is_Some (columns df !! "mass_2") → columns df !! "mass_1" = None →
   get_delays initC s = (Raise (KeyError "mass_1"), s)).
Proof.
  intros Hdf. unfold get_delays. split.
  - intros H2. by rewrite bind_run, (getitem_missing _ _ _ _ Hdf H2).
  - intros [mass_2 H2] H1.
    rewrite bind_run, (getitem_run _ _ _ _ _ Hdf H2).
    by rewrite bind_run, (getitem_missing _ _ _ _ Hdf H1).
Qed.

Lemma zip_with_Rminus_swap (a b : list R) :
  zip_with Rminus a b = Ropp <$> zip_with Rminus b a.
Proof.
  revert b. induction a as [|x a IH]; intros [|y b]; simpl; try done.
  f_equal; [lra|apply IH].
Qed.


End calculator_facts.

(** ** The further properties on the example population *)

Lemma length_mismatch_refused_witness :
  ∃ msg s',
    delay_companions ex_evolve 0 [7%Z] () () ex_state
      = (Raise (ValueError msg), s') ∧
    warnings_log s' = warnings_log ex_state ∧
    heap s' !! 0 = Some ex_initC.
Proof.
  apply (length_mismatch_refused (H := Z_dtype) ex_evolve 0 [7%Z] () () ex_state ex_initC).
  - by vm_compute.
  - simpl. lia.
  - simpl. lia.
Defined.

Lemma engine_failure_propagates_witness :
  ∃ s',
    delay_companions failing_evolve 0 [7; 9]%Z () () ex_state
      = (Raise (EngineError "evolution failed"), s') ∧
    warnings_log s' = warnings_log ex_state ∧
    heap s' !! 0 = Some ex_initC.
Proof.
  apply (engine_failure_propagates (H := Z_dtype) failing_evolve 0 [7; 9]%Z () () ex_state
           ex_initC); by vm_compute.
Defined.

Lemma history_without_identifiers_witness :
  ∃ s',
    delay_companions (const_evolve (ex_bpp_without "bin_num")) 0 [7; 9]%Z () ()
                     ex_state
      = (Raise (KeyError "bin_num"), s') ∧
    warnings_log s' = warnings_log ex_state.
Proof.
  apply (history_without_identifiers (H := Z_dtype) (const_evolve (ex_bpp_without "bin_num"))
           0 [7; 9]%Z () () ex_state ex_initC (ex_bpp_without "bin_num") ());
    by vm_compute.
Defined.

Lemma history_without_event_codes_witness :
  ∃ s',
    delay_companions (const_evolve (ex_bpp_without "evol_type")) 0 [7; 9]%Z () ()
                     ex_state
      = (Raise (KeyError "evol_type"), s') ∧
    warnings_log s' = warnings_log ex_state.
Proof.
  apply (history_without_event_codes (H := Z_dtype) (const_evolve (ex_bpp_without "evol_type"))
           0 [7; 9]%Z () () ex_state ex_initC (ex_bpp_without "evol_type") ()
           [0; 0; 1; 1; 1]%Z);
    by vm_compute.
Defined.

Lemma missing_state_column_witness :
  ∃ c' s',
    delay_companions (const_evolve (ex_bpp_without "ecc")) 0 [7; 9]%Z () ()
                     ex_state
      = (Raise (KeyError c'), s') ∧
    c' ∈ columns_to_update ∧ columns (ex_bpp_without "ecc") !! c' = None ∧
    warnings_log s'
      = (warnings_log ex_state
         ++ interaction_warning
              (unique (compress (between 3 8 <$> [1; 2; 1; 3; 10]%Z)
                                [0; 0; 1; 1; 1]%Z)))%list.
Proof.
  apply (missing_state_column (H := Z_dtype) (const_evolve (ex_bpp_without "ecc"))
           0 [7; 9]%Z () () ex_state ex_initC (ex_bpp_without "ecc") ()
           [0; 0; 1; 1; 1]%Z [1; 2; 1; 3; 10]%Z "ecc"); try by vm_compute.
  apply (bool_decide_unpack _). by vm_compute.
Defined.

Lemma row_count_mismatch_witness :
  ∃ msg s',
    delay_companions (const_evolve ex_bpp_three) 0 [7; 9]%Z () () ex_state
      = (Raise (ValueError msg), s') ∧
    warnings_log s'
      = (warnings_log ex_state
         ++ interaction_warning
              (unique (compress (between 3 8 <$> [1; 1; 4]%Z) [0; 1; 2]%Z)))%list ∧
    heap s' !! 0 = Some ex_initC.
Proof.
  apply (row_count_mismatch (H := Z_dtype) (const_evolve ex_bpp_three) 0 [7; 9]%Z () ()
           ex_state ex_initC ex_bpp_three ()); try by vm_compute.
  - simpl. lia.
  - apply (bool_decide_unpack _). by vm_compute.
  - apply Forall_forall, (bool_decide_unpack _). by vm_compute.
Defined.

Lemma missing_tphysf_witness :
  ∃ s',
    delay_companions ex_evolve 0 [7; 9]%Z () () ex_state_no_tphysf
      = (Raise (KeyError "tphysf"), s') ∧
    warnings_log s'
      = (warnings_log ex_state_no_tphysf
         ++ interaction_warning
              (unique (compress (between 3 8 <$> [1; 2; 1; 3; 10]%Z)
                                [0; 0; 1; 1; 1]%Z)))%list.
Proof.
  apply (missing_tphysf (H := Z_dtype) ex_evolve 0 [7; 9]%Z () () ex_state_no_tphysf
           ex_initC_no_tphysf ex_bpp ()); try by vm_compute.
  - apply (bool_decide_unpack _). by vm_compute.
  - apply Forall_forall, (bool_decide_unpack _). by vm_compute.
Defined.

Lemma delay_companions_returns_iff_witness :
  (∃ new_initC ib s',
     delay_companions ex_evolve 0 [7; 9]%Z () () ex_state
       = (Ok (new_initC, ib), s')) ↔
  is_Some (columns ex_initC !! "tphysf") ∧
  is_Some (columns ex_bpp !! "evol_type") ∧
  (∀ c, c ∈ columns_to_update → is_Some (columns ex_bpp !! c)) ∧
  ∃ ids, columns ex_bpp !! "bin_num" = Some ids ∧
         length (unique ids) = nrows ex_initC.
Proof.
  apply (delay_companions_returns_iff (H := Z_dtype) ex_evolve 0 [7; 9]%Z () () ex_state
           ex_initC ex_bpp ()); try by vm_compute.
  - apply (bool_decide_unpack _). by vm_compute.
  - apply (bool_decide_unpack _). by vm_compute.
Defined.

Lemma final_state_selection_identifiers_witness :
  ∃ kept,
    columns (df_mask ex_bpp [false; true; false; false; true]) !! "bin_num"
      = Some kept ∧
    NoDup kept ∧ (∀ b, b ∈ kept ↔ b ∈ [0; 0; 1; 1; 1]%Z) ∧
    length kept = length (unique [0; 0; 1; 1; 1]%Z) ∧
    (frame_wf ex_bpp →
     frame_wf (df_mask ex_bpp [false; true; false; false; true]) ∧
     nrows (df_mask ex_bpp [false; true; false; false; true])
       = length (unique [0; 0; 1; 1; 1]%Z)).
Proof.
  apply (final_state_selection_identifiers (H := Z_dtype) ex_bpp "bin_num"); by vm_compute.
Defined.

Lemma flagged_among_history_witness :
  ∃ out ids,
    heap (ex_run.2) !! 1 = Some out ∧
    columns ex_bpp !! "bin_num" = Some ids ∧
    (∀ b, b ∈ [1%Z] → b ∈ ids) ∧
    length [1%Z] ≤ nrows out.
Proof.
  apply (flagged_among_history (H := Z_dtype) ex_evolve 0 [7; 9]%Z () () ex_state 1 [1%Z]
           (ex_run.2) ex_initC ex_bpp ()); try by vm_compute.
  apply (bool_decide_unpack _). by vm_compute.
Defined.

Lemma delays_only_reach_engine_witness :
  delay_companions ex_evolve 0 [1; 2]%Z () () ex_state
    = (Ok (1, [1%Z]), ex_run.2).
Proof.
  apply (delays_only_reach_engine (H := Z_dtype) ex_evolve 0 [7; 9]%Z [1; 2]%Z () () ex_state
           ex_initC); by vm_compute.
Defined.

Lemma call_is_repeatable_witness :
  ∃ new_initC' s2,
    delay_companions ex_evolve 0 [7; 9]%Z () () (ex_run.2)
      = (Ok (new_initC', [1%Z]), s2) ∧
    new_initC' ≠ 1 ∧
    heap s2 !! new_initC' = heap (ex_run.2) !! 1 ∧
    heap s2 !! 1 = heap (ex_run.2) !! 1 ∧
    is_Some (heap (ex_run.2) !! 1).
Proof.
  apply (call_is_repeatable (H := Z_dtype) ex_evolve 0 [7; 9]%Z () () ex_state 1 [1%Z]
           (ex_run.2)).
  by vm_compute.
Defined.

Lemma at_most_one_warning_witness :
  ∃ w, warnings_log (ex_run.2) = (warnings_log ex_state ++ w)%list ∧ length w ≤ 1.
Proof.
  apply (at_most_one_warning (H := Z_dtype) ex_evolve 0 [7; 9]%Z () () ex_state
           (Ok (1, [1%Z])) (ex_run.2)).
  by vm_compute.
Defined.

Section real_examples_further.
Local Open Scope R_scope.

Lemma get_delays_missing_mass_witness :
  get_delays 0%nat (mkState {[ 0%nat := ex_masses_no_secondary ]} [])
    = (Raise (KeyError "mass_2"),
       mkState {[ 0%nat := ex_masses_no_secondary ]} []) ∧
  get_delays 0%nat (mkState {[ 0%nat := ex_masses_no_primary ]} [])
    = (Raise (KeyError "mass_1"),
       mkState {[ 0%nat := ex_masses_no_primary ]} []).
Proof.
  split.
  - refine (proj1 (get_delays_missing_mass 0%nat
                     (mkState {[ 0%nat := ex_masses_no_secondary ]} [])
                     ex_masses_no_secondary _) _); reflexivity.
  - refine (proj2 (get_delays_missing_mass 0%nat
                     (mkState {[ 0%nat := ex_masses_no_primary ]} [])
                     ex_masses_no_primary _) _ _);
      [reflexivity | eexists; reflexivity | reflexivity].
Defined.


End real_examples_further.
